(** * star_visualizer.py: the particle-group simulation and the energy lookup

    A shallow embedding of [StarGroup] (constructor, [reset], [update]) and of
    the energy lookup at the head of [create_frame].

    Numbers.  The timestamp [t] and the track duration are Python floats:
    binary64 numbers ([B64.float]) with the correctly rounded [*] and [/] of
    IEEE 754 and with the exceptions of float division, of [int()] and of the
    conversion of an [int].  The energy index of line 137 and the beat index
    of line 109 are computed on them ([energy_idx], [beat_index_binary64],
    [update_binary64]).  A group's geometry, the opacities and the energies
    are modelled by the rational numbers they denote, with the exact
    operations on [Q]: rounding of those results is not modelled, and
    [update] is the method with its clock read in the same way.  Float
    constants of the program ([math.pi], [math.sqrt(WIDTH**2 + HEIGHT**2)],
    the literal [0.35]) are the exact values of the binary64 numbers the
    interpreter holds.  Python [int] is [Z].  [math.cos] and [math.sin] are
    parameters of the development: nothing below depends on what they
    compute.

    Randomness.  The module-level generator of [random] is a cursor into an
    infinite sequence of outputs of [random.random()]; [random.uniform(a, b)]
    is [a + (b - a) * random.random()], as in CPython's [random.py]. *)

From Stdlib Require Import ZArith QArith Qround Qminmax Qpower Floats Lqa Lia List Bool.
Import ListNotations.

Open Scope Q_scope.

(** ** Python primitives *)

Module Py.

(** Exceptions the modelled code can raise. *)
Inductive exn : Type :=
| ZeroDivisionError
| IndexError
| OverflowError
| ValueError.

Inductive result (A : Type) : Type :=
| Ok (a : A)
| Raise (e : exn).
Arguments Ok {A} a.
Arguments Raise {A} e.

Definition rbind {A B} (r : result A) (k : A -> result B) : result B :=
  match r with
  | Ok a => k a
  | Raise e => Raise e
  end.

(** The rational denoted by a binary64 number (0 for infinities and NaN,
    which no constant of the program is). *)
Definition Q_of_float (f : float) : Q :=
  match Prim2SF f with
  | S754_finite s m e =>
      let v := if s then Z.neg m else Z.pos m in
      match e with
      | Z0 => v # 1
      | Zpos p => (v * Z.pow_pos 2 p) # 1
      | Zneg p => v # (Pos.pow 2 p)
      end
  | _ => 0
  end.

Definition ltb (x y : Q) : bool :=
  match x ?= y with Lt => true | _ => false end.

Definition gtb (x y : Q) : bool := ltb y x.

(** [min(a, b)] keeps its first argument unless the second is smaller;
    [max(a, b)] keeps its first argument unless the second is larger. *)
Definition min (a b : Q) : Q := if ltb b a then b else a.
Definition max (a b : Q) : Q := if gtb b a then b else a.

(** [int(x)] on a float: truncation toward zero. *)
Definition int (x : Q) : Z := Z.quot (Qnum x) (Z.pos (Qden x)).

(** [l[i]]: a negative index counts from the end of the list. *)
Definition getitem {A} (l : list A) (i : Z) : result A :=
  let n := Z.of_nat (length l) in
  let k := if (i <? 0)%Z then (n + i)%Z else i in
  if ((k <? 0) || (n <=? k))%Z%bool then Raise IndexError
  else match nth_error l (Z.to_nat k) with
       | Some a => Ok a
       | None => Raise IndexError
       end.

(** [range(lo, hi)] *)
Definition range (lo hi : Z) : list Z :=
  map (fun k => (lo + Z.of_nat k)%Z) (seq 0 (Z.to_nat (hi - lo))).

Definition len {A} (l : list A) : Z := Z.of_nat (length l).

End Py.

(** ** Python floats

    A Python [float] is a binary64 number; [*] and [/] round to nearest, ties
    to even, as the Standard Library's specification of binary64 has them. *)

Module B64.

Definition float : Type := spec_float.

(** A float literal. *)
Definition lit (f : PrimFloat.float) : float := Prim2SF f.

(** The float nearest to an integer. *)
Definition of_Z (n : Z) : float := binary_normalize prec emax n 0 false.

Definition mul (x y : float) : float := SFmul prec emax x y.

Definition fdiv (x y : float) : float := SFdiv prec emax x y.

Definition is_zero (x : float) : bool :=
  match x with S754_zero _ => true | _ => false end.

(** Neither an infinity nor NaN. *)
Definition finite (x : float) : bool :=
  match x with S754_zero _ | S754_finite _ _ _ => true | _ => false end.

(** The rational a finite float denotes (0 for infinities and NaN). *)
Definition to_Q (x : float) : Q :=
  match x with
  | S754_finite s m e =>
      let v := if s then Z.neg m else Z.pos m in
      match e with
      | Z0 => v # 1
      | Zpos p => (v * Z.pow_pos 2 p) # 1
      | Zneg p => v # (Pos.pow 2 p)
      end
  | _ => 0
  end.

(** The conversion of an [int] operand of float arithmetic: an [int] too
    large for a float raises [OverflowError]. *)
Definition of_int (n : Z) : Py.result float :=
  match of_Z n with
  | S754_infinity _ => Py.Raise Py.OverflowError
  | x => Py.Ok x
  end.

(** [x / y] on floats. *)
Definition div (x y : float) : Py.result float :=
  if is_zero y then Py.Raise Py.ZeroDivisionError else Py.Ok (fdiv x y).

(** [int(x)] on a float: truncation toward zero; an infinity raises
    [OverflowError] and NaN raises [ValueError]. *)
Definition int (x : float) : Py.result Z :=
  match x with
  | S754_infinity _ => Py.Raise Py.OverflowError
  | S754_nan => Py.Raise Py.ValueError
  | _ => Py.Ok (Py.int (to_Q x))
  end.

End B64.

(** ** Configuration constants (lines 10-22) *)

Definition WIDTH : Z := 1920.
Definition HEIGHT : Z := 1080.
Definition FPS : Z := 30.
Definition BPM : Z := 85.
Definition BEAT_DURATION : Q := 60 / inject_Z BPM.
Definition STARS_PER_GROUP : Z := 7.
Definition BASE_SPEED : Q := 3.
Definition MAX_SPEED : Q := 8.

(** [math.pi] *)
Definition math_pi : Q :=
  Eval vm_compute in Qred (Py.Q_of_float 0x1.921fb54442d18p+1%float).

(** [math.sqrt(WIDTH**2 + HEIGHT**2)], with binary64's correctly rounded
    square root. *)
Definition SCREEN_DIAGONAL : Q :=
  Eval vm_compute in
    Qred (Py.Q_of_float (PrimFloat.sqrt (1920 * 1920 + 1080 * 1080)%float)).

(** The literal [0.35] of line 82. *)
Definition CONNECT_PROBABILITY : Q :=
  Eval vm_compute in Qred (Py.Q_of_float 0x1.6666666666666p-2%float).

(** ** Data model

    The dictionaries of lines 73-77 and 83-87 are records; the key ['stars']
    of a connection is [conn_stars], and [self.id] is [gid]. *)

Record Star : Type := {
  angle_offset : Q;
  dist_offset : Q;
  pulse_phase : Q
}.

Record Connection : Type := {
  conn_stars : Z * Z;
  alpha : Q;
  active : bool
}.

Record StarGroup : Type := {
  gid : Z;
  stars : list Star;
  connections : list Connection;
  angle : Q;
  speed : Q;
  distance : Q
}.

(** ** The random source

    The generator's state is the number of outputs consumed so far. *)

Definition Rand (A : Type) : Type := nat -> A * nat.

Definition ret {A} (a : A) : Rand A := fun n => (a, n).

Definition bind {A B} (m : Rand A) (k : A -> Rand B) : Rand B :=
  fun n => let (a, n') := m n in k a n'.

Notation "x <- m ;; k" := (bind m (fun x => k))
  (at level 61, m at next level, right associativity).

(** A loop [for x in l: ...] over an accumulator, whose body draws random
    numbers. *)
Fixpoint for_each {A S} (l : list A) (body : S -> A -> Rand S) (acc : S) : Rand S :=
  match l with
  | [] => ret acc
  | x :: l' => acc' <- body acc x ;; for_each l' body acc'
  end.

(** The outputs of [random.random()] lie in [0, 1). *)
Definition unit_interval (draws : nat -> Q) : Prop :=
  forall n, 0 <= draws n /\ draws n < 1.

Definition alpha_change : Q := inject_Z (255 * BPM) / inject_Z (60 * FPS).

(** The body of the loop over [self.connections] (lines 114-128). *)
Definition update_connection (beat_index : Z) (conn : Connection) : Connection :=
  let conn1 :=
    if ((beat_index mod 2 =? 0)%Z && negb (active conn))%bool
    then {| conn_stars := conn_stars conn; alpha := 0; active := true |}
    else if ((beat_index mod 2 =? 1)%Z && active conn)%bool
    then {| conn_stars := conn_stars conn; alpha := alpha conn; active := false |}
    else conn in
  if active conn1
  then {| conn_stars := conn_stars conn1;
          alpha := Py.min 255 (alpha conn1 + alpha_change);
          active := active conn1 |}
  else {| conn_stars := conn_stars conn1;
          alpha := Py.max 0 (alpha conn1 - alpha_change);
          active := active conn1 |}.

(** The test of lines 103-104. *)
Definition off_screen (center_x center_y : Q) : bool :=
  Py.ltb center_x (-100) || Py.gtb center_x (inject_Z WIDTH + 100)
  || Py.ltb center_y (-100) || Py.gtb center_y (inject_Z HEIGHT + 100).

(** A call a group can receive after its construction. *)
Inductive call : Type :=
| Update (time vocal_energy : Q)
| Reset.

Section Model.

(** The sequence of outputs of [random.random()], and [math.cos], [math.sin]. *)
Variable draws : nat -> Q.
Variables math_cos math_sin : Q -> Q.

(** [random.random()] *)
Definition random : Rand Q := fun n => (draws n, S n).

(** [random.uniform(a, b)] *)
Definition uniform (a b : Q) : Rand Q :=
  r <- random ;; ret (a + (b - a) * r).

(** *** StarGroup.reset (lines 61-87) *)

Definition new_star : Rand Star :=
  a <- uniform (-1) 1 ;;
  d <- uniform 1 2 ;;
  p <- uniform 0 (2 * math_pi) ;;
  ret {| angle_offset := a; dist_offset := d; pulse_phase := p |}.

(** The body of the loop of lines 70-77. *)
Definition add_star (acc : list Star) (_ : Z) : Rand (list Star) :=
  s <- new_star ;; ret (acc ++ [s]).

Definition make_stars : Rand (list Star) :=
  for_each (Py.range 0 STARS_PER_GROUP) add_star [].

Definition maybe_connect (i : Z) (acc : list Connection) (j : Z)
  : Rand (list Connection) :=
  r <- random ;;
  if Py.ltb r CONNECT_PROBABILITY
  then ret (acc ++ [{| conn_stars := (i, j); alpha := 0; active := false |}])
  else ret acc.

Definition make_connections (n : Z) : Rand (list Connection) :=
  for_each (Py.range 0 n)
    (fun acc i => for_each (Py.range (i + 1) n) (maybe_connect i) acc) [].

Definition reset (g : StarGroup) : Rand StarGroup :=
  a <- uniform 0 (2 * math_pi) ;;
  d <- uniform 0 200 ;;
  st <- make_stars ;;
  cs <- make_connections (Py.len st) ;;
  ret {| gid := gid g; stars := st; connections := cs;
         angle := a; speed := BASE_SPEED; distance := d |}.

(** *** StarGroup.__init__ (lines 52-59) *)

Definition StarGroup_init (group_id : Z) : Rand StarGroup :=
  a <- uniform 0 (2 * math_pi) ;;
  d <- uniform 0 200 ;;
  reset {| gid := group_id; stars := []; connections := [];
           angle := a; speed := BASE_SPEED; distance := d |}.

(** *** StarGroup.update (lines 89-128) *)

Definition next_speed (g : StarGroup) : Q :=
  let distance_ratio := distance g / SCREEN_DIAGONAL in
  BASE_SPEED + (MAX_SPEED - BASE_SPEED) * distance_ratio ^ 3.

(** Lines 92-96: the group after its speed and distance were advanced. *)
Definition advance (g : StarGroup) : StarGroup :=
  let s := next_speed g in
  {| gid := gid g; stars := stars g; connections := connections g;
     angle := angle g; speed := s; distance := distance g + s |}.

(** Lines 99-100 (and 147-148 of [create_frame]). *)
Definition center (g : StarGroup) : Q * Q :=
  (inject_Z WIDTH / 2 + math_cos (angle g) * distance g,
   inject_Z HEIGHT / 2 + math_sin (angle g) * distance g).

Definition update (time vocal_energy : Q) (g : StarGroup) : Rand StarGroup :=
  let g1 := advance g in
  let (center_x, center_y) := center g1 in
  if off_screen center_x center_y then reset g1
  else
    let beat_index := Py.int (time / BEAT_DURATION) in
    ret {| gid := gid g1; stars := stars g1;
           connections := map (update_connection beat_index) (connections g1);
           angle := angle g1; speed := speed g1; distance := distance g1 |}.

(** *** A group's life: construction, then any sequence of calls *)

Definition do_call (g : StarGroup) (c : call) : Rand StarGroup :=
  match c with
  | Update time vocal_energy => update time vocal_energy g
  | Reset => reset g
  end.

Definition run (calls : list call) (g : StarGroup) : Rand StarGroup :=
  for_each calls do_call g.

Definition life (group_id : Z) (calls : list call) : Rand StarGroup :=
  g <- StarGroup_init group_id ;; run calls g.

(** The test of lines 103-104 on a group whose distance was advanced: does
    this update reset the group? *)
Definition leaves_screen (g : StarGroup) : bool :=
  let (center_x, center_y) := center (advance g) in
  off_screen center_x center_y.

End Model.

(** ** The energy lookup of create_frame (lines 135-140)

    [t] and [duration] are Python floats and [total_frames] is a Python
    [int]. *)

(** [t * total_frames / duration] *)
Definition lookup_quotient (t : B64.float) (total_frames : Z) (duration : B64.float)
  : Py.result B64.float :=
  Py.rbind (B64.of_int total_frames)
    (fun n => B64.div (B64.mul t n) duration).

Definition energy_idx (t : B64.float) (total_frames : Z) (duration : B64.float)
  : Py.result Z :=
  Py.rbind (lookup_quotient t total_frames duration)
    (fun q => Py.rbind (B64.int q)
       (fun i => Py.Ok (Z.min (total_frames - 1) i))).

Definition current_energy (t : B64.float) (vocal_energy : list Q)
    (total_frames : Z) (duration : B64.float) : Py.result Q :=
  if (total_frames >? 0)%Z then
    Py.rbind (energy_idx t total_frames duration)
      (fun idx =>
         match vocal_energy with
         | [] => Py.Ok 0
         | _ => Py.getitem vocal_energy idx
         end)
  else Py.Ok 0.

(** ** StarGroup.update on a float timestamp (lines 89-128) *)

(** [BEAT_DURATION = 60 / BPM] as the interpreter holds it: the float nearest
    to 12/17. *)
Definition BEAT_DURATION_binary64 : B64.float :=
  Eval vm_compute in B64.fdiv (B64.of_Z 60) (B64.of_Z BPM).

(** Line 109: [int(time / BEAT_DURATION)]. *)
Definition beat_index_binary64 (time : B64.float) : Py.result Z :=
  Py.rbind (B64.div time BEAT_DURATION_binary64) B64.int.

Section Clock.

Variable draws : nat -> Q.
Variables math_cos math_sin : Q -> Q.

(** [update] with the beat index of the interpreter; [int()] is reached, and
    can raise, only when the group is not reset. *)
Definition update_binary64 (time : B64.float) (vocal_energy : Q) (g : StarGroup)
  : Rand (Py.result StarGroup) :=
  let g1 := advance g in
  let (center_x, center_y) := center math_cos math_sin g1 in
  if off_screen center_x center_y then
    g' <- reset draws g1 ;; ret (Py.Ok g')
  else
    ret (Py.rbind (beat_index_binary64 time)
           (fun beat_index =>
              Py.Ok {| gid := gid g1; stars := stars g1;
                       connections :=
                         map (update_connection beat_index) (connections g1);
                       angle := angle g1; speed := speed g1;
                       distance := distance g1 |})).

End Clock.

(** ** The connection endpoints fetched by create_frame (lines 165-169) *)

Definition connection_endpoints (g : StarGroup) (conn : Connection)
  : Py.result (Star * Star) :=
  let (i, j) := conn_stars conn in
  Py.rbind (Py.getitem (stars g) i)
    (fun star1 => Py.rbind (Py.getitem (stars g) j)
       (fun star2 => Py.Ok (star1, star2))).

(** ** Vocabulary of the properties *)

(** The index the specification names: [clamp(x, lo, hi)]. *)
Definition clamp (x lo hi : Z) : Z := Z.max lo (Z.min x hi).

(** The ranges of a star's three random attributes. *)
Definition star_in_range (s : Star) : Prop :=
  (-1 <= angle_offset s /\ angle_offset s <= 1)
  /\ (1 <= dist_offset s /\ dist_offset s <= 2)
  /\ (0 <= pulse_phase s /\ pulse_phase s < 2 * math_pi).

(** A connection as [reset] creates it. *)
Definition fresh (c : Connection) : Prop :=
  alpha c = 0 /\ active c = false.

(** A connection whose star pair indexes a list of [n] stars. *)
Definition indexes (n : Z) (c : Connection) : Prop :=
  (0 <= fst (conn_stars c) /\ fst (conn_stars c) < snd (conn_stars c)
   /\ snd (conn_stars c) < n)%Z.

Definition opacity_in_range (c : Connection) : Prop :=
  0 <= alpha c /\ alpha c <= 255.


(** A scripted random source: 0, 1/4, 1/2, 3/4, 0, ... *)
Definition quarter_draws (k : nat) : Q := Z.of_nat (k mod 4) # 4.

Definition empty_group : StarGroup :=
  {| gid := 0; stars := []; connections := [];
     angle := 0; speed := 0; distance := 0 |}.

(** A stretch of calls without a reset: only updates, none of which leaves
    the screen. *)
Fixpoint no_reset (draws : nat -> Q) (math_cos math_sin : Q -> Q)
    (calls : list call) (g : StarGroup) (n : nat) : bool :=
  match calls with
  | [] => true
  | Update time vocal_energy :: rest =>
      negb (leaves_screen math_cos math_sin g)
      && no_reset draws math_cos math_sin rest
           (fst (update draws math_cos math_sin time vocal_energy g n))
           (snd (update draws math_cos math_sin time vocal_energy g n))
  | Reset :: _ => false
  end.

(** A call with its energy argument replaced. *)
Definition with_energy (f : Q -> Q -> Q) (c : call) : call :=
  match c with
  | Update time vocal_energy => Update time (f time vocal_energy)
  | Reset => Reset
  end.



(** The same ramp on binary64 numbers with their rounding, as the interpreter
    computes it: [255 * BPM / (60 * FPS)] is the correctly rounded quotient of
    two integers and [min(255, alpha + alpha_change)] keeps 255 unless the sum
    is smaller. *)
Definition alpha_change_binary64 : float := (21675 / 1800)%float.

Definition ramp_binary64 (a : float) : float :=
  let x := (a + alpha_change_binary64)%float in
  if (x <? 255)%float then x else 255%float.

Fixpoint ramp_binary64_n (n : nat) (a : float) : float :=
  match n with
  | O => a
  | S n' => ramp_binary64_n n' (ramp_binary64 a)
  end.

(** The way down on binary64 numbers: [max(0, alpha - alpha_change)] keeps 0
    unless the difference is larger. *)
Definition fade_binary64 (a : float) : float :=
  let x := (a - alpha_change_binary64)%float in
  if (0 <? x)%float then x else 0%float.

Fixpoint fade_binary64_n (n : nat) (a : float) : float :=
  match n with
  | O => a
  | S n' => fade_binary64_n n' (fade_binary64 a)
  end.

(** The opacity after three steps up from 0 and three steps down. *)
Definition residue_binary64 : float :=
  fade_binary64_n 3 (ramp_binary64_n 3 0%float).

(** A float that is not below zero: a zero of either sign, a positive
    number, plus infinity (or NaN, which no comparison orders). *)
Definition not_negative (x : B64.float) : Prop :=
  match x with
  | S754_finite s _ _ | S754_infinity s => s = false
  | _ => True
  end.

(** ** load_audio: framing and normalisation (lines 29-45)

    The waveform [y] is a list of samples.  The band energy of one frame
    (lines 36-39, computed by [librosa] and [numpy]) is a parameter. *)

Definition HOP_LENGTH : nat := 512.

(** [range(0, hi, step)] *)
Definition range_step (hi step : nat) : list nat :=
  map (fun k => (k * step)%nat) (seq 0 ((hi + step - 1) / step)).

(** [y[i:i+hop_length]] *)
Definition frame_at (y : list Q) (i : nat) : list Q :=
  firstn HOP_LENGTH (skipn i y).

(** [max(l)] raises [ValueError] on an empty list; nothing else in
    [load_audio]'s own code raises. *)
Inductive analysis (A : Type) : Type :=
| Analysed (a : A)
| RaiseValueError.
Arguments Analysed {A} a.
Arguments RaiseValueError {A}.

(** [max(l)] on a non-empty list: the running maximum is replaced by a
    strictly larger item. *)
Definition max_of (first : Q) (rest : list Q) : Q := fold_left Py.max rest first.

(** Lines 44-45. *)
Definition normalise (vocal_energy : list Q) : analysis (list Q) :=
  match vocal_energy with
  | [] => RaiseValueError
  | first :: rest =>
      let max_energy :=
        if Py.gtb (max_of first rest) 0 then max_of first rest else 1 in
      Analysed (map (fun e => e / max_energy) vocal_energy)
  end.

Section Analysis.

Variable frame_energy : list Q -> Q.

(** One pass of the loop of lines 32-41. *)
Definition analyse_frame (y : list Q) (acc : list Q * Z) (i : nat) : list Q * Z :=
  let frame := frame_at y i in
  if (length frame <? HOP_LENGTH)%nat then acc
  else (fst acc ++ [frame_energy frame], (snd acc + 1)%Z).

Definition analyse_frames (y : list Q) : list Q * Z :=
  fold_left (analyse_frame y) (range_step (length y) HOP_LENGTH) ([], 0%Z).

(** The [vocal_energy] and [frame_count] that [load_audio] returns. *)
Definition load_audio (y : list Q) : analysis (list Q * Z) :=
  let (vocal_energy, frame_count) := analyse_frames y in
  match normalise vocal_energy with
  | Analysed normalised => Analysed (normalised, frame_count)
  | RaiseValueError => RaiseValueError
  end.

End Analysis.

(** ** create_frame: what is drawn (lines 142-189)

    A frame is the list of shapes handed to [pygame.draw], in drawing order. *)

Definition NUM_STAR_GROUPS : Z := 80.
Definition MAX_STAR_RADIUS : Z := 5.
Definition MIN_STAR_RADIUS : Z := 1.

Inductive shape : Type :=
| Circle (x y radius : Z)
| Line (x1 y1 x2 y2 : Q) (line_alpha : Z).

Section Rendering.

Variable draws : nat -> Q.
Variables math_cos math_sin : Q -> Q.

(** Lines 153-156 (and 172-180): where a star of the group is. *)
Definition star_point (g : StarGroup) (center_x center_y : Q) (star : Star) : Q * Q :=
  let angle := angle g + angle_offset star in
  let distance := distance g * dist_offset star in
  (center_x + math_cos angle * distance, center_y + math_sin angle * distance).

(** Lines 159-160. *)
Definition star_radius (current_energy : Q) (star : Star) : Q :=
  let pulse := (1 # 2) + (1 # 2) * math_sin (pulse_phase star + current_energy * 15) in
  inject_Z MIN_STAR_RADIUS
  + (inject_Z MAX_STAR_RADIUS - inject_Z MIN_STAR_RADIUS) * pulse.

(** Line 162. *)
Definition draw_star (g : StarGroup) (center_x center_y current_energy : Q)
    (star : Star) : shape :=
  let (x, y) := star_point g center_x center_y star in
  Circle (Py.int x) (Py.int y) (Py.int (star_radius current_energy star)).

(** Line 183. *)
Definition line_alpha_of (opacity : Q) : Z :=
  Z.min 255 (Z.max 0 (Py.int opacity)).

(** Lines 166-189: the line of one connection, if any. *)
Definition draw_connection (g : StarGroup) (center_x center_y : Q)
    (conn : Connection) : Py.result (list shape) :=
  if Py.gtb (alpha conn) 0 then
    Py.rbind (connection_endpoints g conn)
      (fun ends =>
         let (x1, y1) := star_point g center_x center_y (fst ends) in
         let (x2, y2) := star_point g center_x center_y (snd ends) in
         Py.Ok [Line x1 y1 x2 y2 (line_alpha_of (alpha conn))])
  else Py.Ok [].

Fixpoint draw_connections (g : StarGroup) (center_x center_y : Q)
    (conns : list Connection) : Py.result (list shape) :=
  match conns with
  | [] => Py.Ok []
  | conn :: rest =>
      Py.rbind (draw_connection g center_x center_y conn)
        (fun l => Py.rbind (draw_connections g center_x center_y rest)
                    (fun ls => Py.Ok (l ++ ls)))
  end.

(** Lines 146-189: the shapes of one group, its stars first. *)
Definition draw_group (g : StarGroup) (current_energy : Q) : Py.result (list shape) :=
  let (center_x, center_y) := center math_cos math_sin g in
  Py.rbind (draw_connections g center_x center_y (connections g))
    (fun lines =>
       Py.Ok (map (draw_star g center_x center_y current_energy) (stars g) ++ lines)).

(** One pass of the loop of line 143; an exception ends the loop. *)
Definition frame_group (t : B64.float) (current_energy : Q)
    (acc : Py.result (list StarGroup * list shape)) (group : StarGroup)
  : Rand (Py.result (list StarGroup * list shape)) :=
  match acc with
  | Py.Raise e => ret (Py.Raise e)
  | Py.Ok (updated, surface) =>
      r <- update_binary64 draws math_cos math_sin t current_energy group ;;
      ret (Py.rbind r
             (fun g => Py.rbind (draw_group g current_energy)
                (fun shapes => Py.Ok (updated ++ [g], surface ++ shapes))))
  end.

(** [create_frame]: the groups after their update and the shapes drawn. *)
Definition create_frame (t : B64.float) (groups : list StarGroup)
    (vocal_energy : list Q) (total_frames : Z) (duration : B64.float)
  : Rand (Py.result (list StarGroup * list shape)) :=
  match current_energy t vocal_energy total_frames duration with
  | Py.Raise e => ret (Py.Raise e)
  | Py.Ok energy => for_each groups (frame_group t energy) (Py.Ok ([], []))
  end.

(** Line 207 of [main]. *)
Definition add_group (acc : list StarGroup) (i : Z) : Rand (list StarGroup) :=
  g <- StarGroup_init draws i ;; ret (acc ++ [g]).

Definition make_groups : Rand (list StarGroup) :=
  for_each (Py.range 0 NUM_STAR_GROUPS) add_group [].

(** The frames [make_frame] produces for a sequence of timestamps, each on
    the groups the previous one left. *)
Fixpoint play (times : list B64.float) (groups : list StarGroup)
    (vocal_energy : list Q) (total_frames : Z) (duration : B64.float)
  : Rand (Py.result (list StarGroup * list (list shape))) :=
  match times with
  | [] => ret (Py.Ok (groups, []))
  | t :: later =>
      r <- create_frame t groups vocal_energy total_frames duration ;;
      match r with
      | Py.Raise e => ret (Py.Raise e)
      | Py.Ok (groups', frame) =>
          rest <- play later groups' vocal_energy total_frames duration ;;
          ret (Py.rbind rest (fun p => Py.Ok (fst p, frame :: snd p)))
      end
  end.

End Rendering.

(** ** More vocabulary *)

(** What every group keeps: seven stars, and connections that index them
    and whose opacity is within [0, 255]. *)
Definition group_ok (g : StarGroup) : Prop :=
  Py.len (stars g) = STARS_PER_GROUP
  /\ Forall (fun c => indexes (Py.len (stars g)) c /\ opacity_in_range c)
            (connections g).

(** A disc of radius 1 to 5 pixels, or a line whose alpha is 0 to 255. *)
Definition well_drawn (s : shape) : Prop :=
  match s with
  | Circle _ _ radius => (1 <= radius <= 5)%Z
  | Line _ _ _ _ line_alpha => (0 <= line_alpha <= 255)%Z
  end.

Definition is_circle (s : shape) : bool :=
  match s with Circle _ _ _ => true | Line _ _ _ _ _ => false end.

(** A stand-in for the band energy of a frame: its sum of squares. *)
Definition sum_squares (frame : list Q) : Q :=
  fold_right (fun x acc => x * x + acc) 0 frame.

(** The connection [reset] appends for a pair of stars. *)
Definition new_connection (pair : Z * Z) : Connection :=
  {| conn_stars := pair; alpha := 0; active := false |}.

(** The second indices kept for one first index: each candidate has its own
    draw, the next one of the source, and is kept when that draw is below
    [CONNECT_PROBABILITY]. *)
Fixpoint chosen (draws : nat -> Q) (js : list Z) (n : nat) : list Z :=
  match js with
  | [] => []
  | j :: js' =>
      if Py.ltb (draws n) CONNECT_PROBABILITY
      then j :: chosen draws js' (S n)
      else chosen draws js' (S n)
  end.

(** The pairs kept among all [(i, j)] with [i] in [firsts] and [i < j < m], read
    in lexicographic order from draw [n] on. *)
Fixpoint chosen_pairs (draws : nat -> Q) (firsts : list Z) (m : Z) (n : nat)
  : list (Z * Z) :=
  match firsts with
  | [] => []
  | i :: firsts' =>
      map (pair i) (chosen draws (Py.range (i + 1) m) n)
      ++ chosen_pairs draws firsts' m (n + length (Py.range (i + 1) m))
  end.

(** A waveform of two frames: 512 ones, then 512 halves. *)
Definition two_frames : list Q :=
  repeat (1 # 1) 512%nat ++ repeat (1 # 2) 512%nat.

(** A pair of rational functions on the unit circle. *)
Definition circle_cos (x : Q) : Q := (1 - x * x) / (1 + x * x).
Definition circle_sin (x : Q) : Q := (2 * x) / (1 + x * x).

(** * Properties *)

(** ** Facts about the Python primitives *)

Lemma ltb_lt (x y : Q) : Py.ltb x y = true <-> x < y.
Proof.
  unfold Py.ltb. rewrite Qlt_alt.
  destruct (x ?= y); split; congruence.
Qed.

Lemma ltb_ge (x y : Q) : Py.ltb x y = false <-> y <= x.
Proof.
  split; intro H.
  - apply Qnot_lt_le. intro L. apply ltb_lt in L. congruence.
  - destruct (Py.ltb x y) eqn:E; [|reflexivity].
    apply ltb_lt in E. exfalso. apply (Qlt_not_le _ _ E H).
Qed.

Lemma min_255_bounds (x : Q) : 0 <= x -> 0 <= Py.min 255 x /\ Py.min 255 x <= 255.
Proof.
  intro Hx. unfold Py.min. destruct (Py.ltb x 255) eqn:E.
  - apply ltb_lt in E. split; [assumption | apply Qlt_le_weak; assumption].
  - split; lra.
Qed.

Lemma max_0_bounds (x : Q) : x <= 255 -> 0 <= Py.max 0 x /\ Py.max 0 x <= 255.
Proof.
  intro Hx. unfold Py.max, Py.gtb. destruct (Py.ltb 0 x) eqn:E.
  - apply ltb_lt in E. split; [apply Qlt_le_weak; assumption | assumption].
  - split; lra.
Qed.

(** On non-negative numbers truncation toward zero is the floor. *)
Lemma int_floor (q : Q) : 0 <= q -> Py.int q = Qfloor q.
Proof.
  destruct q as [n d]. unfold Qle, Py.int, Qfloor. simpl. intro H.
  apply Z.quot_div_nonneg; lia.
Qed.

(** Strictly between -1 and 0 truncation gives 0 (the floor is -1). *)
Lemma int_small_negative (q : Q) : -1 < q -> q < 0 -> Py.int q = 0%Z /\ Qfloor q = (-1)%Z.
Proof.
  destruct q as [n d]. unfold Qlt, Py.int, Qfloor. simpl. intros H1 H2.
  split.
  - rewrite <- (Z.opp_involutive n), Z.quot_opp_l by lia.
    rewrite Z.quot_small; lia.
  - symmetry. apply (Z.div_unique n (Z.pos d) (-1) (n + Z.pos d)); lia.
Qed.

Lemma getitem_in_range {A} (l : list A) (i : Z) (d : A) :
  (0 <= i < Py.len l)%Z -> Py.getitem l i = Py.Ok (nth (Z.to_nat i) l d).
Proof.
  unfold Py.len, Py.getitem. intros [H0 H1]. cbv zeta.
  assert (E0 : (i <? 0)%Z = false) by (apply Z.ltb_ge; lia).
  assert (E1 : (Z.of_nat (length l) <=? i)%Z = false) by (apply Z.leb_gt; lia).
  rewrite !E0, E1. simpl. destruct (nth_error l (Z.to_nat i)) eqn:E.
  - f_equal. symmetry. apply nth_error_nth. exact E.
  - apply nth_error_None in E. lia.
Qed.

(** ** Facts about binary64 *)

(** Rounding keeps the sign. *)
Lemma round_sign (sx : bool) (mx ex : Z) (lx : location) :
  match binary_round_aux prec emax sx mx ex lx with
  | S754_finite s _ _ | S754_infinity s | S754_zero s => s = sx
  | S754_nan => True
  end.
Proof.
  unfold binary_round_aux.
  destruct (shr_fexp prec emax mx ex lx) as [mrs' e'].
  destruct (shr_fexp prec emax _ e' loc_Exact) as [mrs'' e''].
  destruct (shr_m mrs''); [reflexivity| |exact I].
  destruct (e'' <=? emax - prec)%Z; reflexivity.
Qed.

Lemma mul_not_negative (x y : B64.float) :
  not_negative x -> not_negative y -> not_negative (B64.mul x y).
Proof.
  unfold B64.mul, SFmul.
  destruct x as [sx|sx| |sx mx ex], y as [sy|sy| |sy my ey]; simpl; intros Hx Hy;
    subst; try exact I; try reflexivity.
  pose proof (round_sign (xorb false false) (Z.pos (mx * my)) (ex + ey)%Z loc_Exact)
    as H.
  destruct (binary_round_aux _ _ _ _ _ _); simpl in *; auto.
Qed.

Lemma div_not_negative (x y : B64.float) :
  not_negative x -> not_negative y -> B64.is_zero y = false ->
  not_negative (B64.fdiv x y).
Proof.
  unfold B64.fdiv, SFdiv.
  destruct x as [sx|sx| |sx mx ex], y as [sy|sy| |sy my ey]; simpl;
    intros Hx Hy Hz; subst; try exact I; try reflexivity; try discriminate Hz.
  destruct (SFdiv_core_binary prec emax (Z.pos mx) ex (Z.pos my) ey) as [[mz ez] lz].
  pose proof (round_sign (xorb false false) mz ez lz) as H.
  destruct (binary_round_aux _ _ _ _ _ _); simpl in *; auto.
Qed.

Lemma of_Z_not_negative (n : Z) : (0 <= n)%Z -> not_negative (B64.of_Z n).
Proof.
  unfold B64.of_Z, binary_normalize. intro H.
  destruct n as [|p|p]; [exact I| |lia].
  unfold binary_round.
  destruct (shl_align p 0 _) as [mz ez].
  pose proof (round_sign false (Z.pos mz) ez loc_Exact) as R.
  destruct (binary_round_aux _ _ _ _ _ _); simpl in *; auto.
Qed.

Lemma of_int_not_negative (n : Z) (x : B64.float) :
  (0 <= n)%Z -> B64.of_int n = Py.Ok x -> not_negative x.
Proof.
  intros H E. pose proof (of_Z_not_negative n H) as P.
  unfold B64.of_int in E.
  destruct (B64.of_Z n); try discriminate E; injection E as <-; exact P.
Qed.

Lemma to_Q_not_negative (x : B64.float) : not_negative x -> 0 <= B64.to_Q x.
Proof.
  destruct x as [s|s| |s m e]; simpl; intro H; try (apply Qle_refl).
  subst s. destruct e; unfold Qle; cbn [Qnum Qden]; lia.
Qed.

Lemma div_ok (x y q : B64.float) :
  B64.div x y = Py.Ok q -> B64.is_zero y = false /\ q = B64.fdiv x y.
Proof.
  unfold B64.div. destruct (B64.is_zero y); [discriminate|].
  intro E. injection E as <-. split; reflexivity.
Qed.

(** [int()] succeeds exactly on the finite floats. *)
Lemma int_finite (x : B64.float) :
  B64.finite x = true -> B64.int x = Py.Ok (Py.int (B64.to_Q x)).
Proof. destruct x; try discriminate; reflexivity. Qed.

Lemma int_not_finite (x : B64.float) :
  B64.finite x = false ->
  exists e, B64.int x = Py.Raise e
            /\ (e = Py.OverflowError \/ e = Py.ValueError).
Proof.
  destruct x; try discriminate; intros _; eexists; (split; [reflexivity|]);
    [left | right]; reflexivity.
Qed.

Lemma int_ok (x : B64.float) (i : Z) :
  B64.int x = Py.Ok i -> B64.finite x = true /\ i = Py.int (B64.to_Q x).
Proof.
  destruct x; try discriminate; intro E; injection E as <-; split; reflexivity.
Qed.

(** For a timestamp and a duration that are not negative, neither is the
    quotient of line 137. *)
Lemma lookup_quotient_not_negative (t : B64.float) (N : Z) (D q : B64.float) :
  (0 <= N)%Z -> not_negative t -> not_negative D ->
  lookup_quotient t N D = Py.Ok q -> not_negative q.
Proof.
  intros HN Ht HD E. unfold lookup_quotient in E.
  destruct (B64.of_int N) as [n|] eqn:En; [|discriminate E].
  cbn [Py.rbind] in E. apply div_ok in E. destruct E as [Hz ->].
  apply div_not_negative; [|exact HD | exact Hz].
  apply mul_not_negative; [exact Ht|]. exact (of_int_not_negative N n HN En).
Qed.

(** The index of line 137, given the float quotient. *)
Lemma energy_idx_of_quotient (t : B64.float) (N : Z) (D q : B64.float) :
  lookup_quotient t N D = Py.Ok q ->
  energy_idx t N D
  = Py.rbind (B64.int q) (fun i => Py.Ok (Z.min (N - 1) i)).
Proof. intro E. unfold energy_idx. rewrite E. reflexivity. Qed.

(** ** C1: the energy lookup *)

(** C1, as stated, fails: the lookup only clamps from above.  At [t = -1.0]
    with ten samples over ten seconds the index is [-1], which Python reads
    as the last sample, where the claim has index [0], the first one.  The
    index is taken from the float quotient: at [t = -0.7] with ten samples
    over seven seconds the exact quotient is above [-1], the float one is
    [-1.0] and the index is [-1] again. *)
Lemma C1_counterexample :
  let t := B64.lit (-1)%float in
  let D := B64.lit 10%float in
  lookup_quotient t 10 D = Py.Ok (B64.lit (-1)%float)
  /\ energy_idx t 10 D = Py.Ok (-1)%Z
  /\ clamp (Qfloor (B64.to_Q (B64.lit (-1)%float))) 0 (10 - 1) = 0%Z
  /\ current_energy t [0; 0; 0; 0; 0; 0; 0; 0; 0; 1] 10 D = Py.Ok 1
  /\ (-1 < B64.to_Q (B64.lit (-0x1.6666666666666p-1)%float) * 10 / 7
      /\ energy_idx (B64.lit (-0x1.6666666666666p-1)%float) 10 (B64.lit 7%float)
         = Py.Ok (-1)%Z)
  /\ ~ (forall (t : B64.float) (N : Z) (D q : B64.float),
          (0 < N)%Z -> lookup_quotient t N D = Py.Ok q -> B64.finite q = true ->
          energy_idx t N D = Py.Ok (clamp (Qfloor (B64.to_Q q)) 0 (N - 1))).
Proof.
  cbv zeta.
  split; [vm_compute; reflexivity|]. split; [vm_compute; reflexivity|].
  split; [vm_compute; reflexivity|]. split; [vm_compute; reflexivity|].
  split; [split; vm_compute; reflexivity|].
  intro H.
  specialize (H (B64.lit (-1)%float) 10%Z (B64.lit 10%float) (B64.lit (-1)%float)
                eq_refl ltac:(vm_compute; reflexivity) eq_refl).
  vm_compute in H. discriminate H.
Qed.

(** C1 (amended): let [q] be the float [t * total_frames / duration] as the
    interpreter computes it, with [N = total_frames > 0].  When [q] is finite
    and above [-1] the lookup selects index [clamp(floor(q), 0, N - 1)],
    which lies in [0, N - 1], and returns that sample of a track of [N]
    samples.  A finite [q] is not negative whenever neither [t] nor the
    duration is.  When [q] is an infinity or NaN, [int()] raises
    [OverflowError] or [ValueError].  When [N = 0] the lookup returns energy
    0 for every [t] and every duration, without raising. *)
Theorem C1_energy_lookup_clamped :
  (forall (t : B64.float) (N : Z) (D q : B64.float) (vocal_energy : list Q),
      (0 < N)%Z -> lookup_quotient t N D = Py.Ok q ->
      B64.finite q = true -> -1 < B64.to_Q q ->
      let i := clamp (Qfloor (B64.to_Q q)) 0 (N - 1) in
      energy_idx t N D = Py.Ok i
      /\ (0 <= i <= N - 1)%Z
      /\ (Py.len vocal_energy = N ->
          current_energy t vocal_energy N D
          = Py.Ok (nth (Z.to_nat i) vocal_energy 0)))
  /\ (forall (t : B64.float) (N : Z) (D q : B64.float),
      (0 < N)%Z -> not_negative t -> not_negative D ->
      lookup_quotient t N D = Py.Ok q -> 0 <= B64.to_Q q)
  /\ (forall (t : B64.float) (N : Z) (D q : B64.float),
      lookup_quotient t N D = Py.Ok q -> B64.finite q = false ->
      exists e, energy_idx t N D = Py.Raise e
                /\ (e = Py.OverflowError \/ e = Py.ValueError))
  /\ (forall (t D : B64.float) (vocal_energy : list Q),
      current_energy t vocal_energy 0 D = Py.Ok 0).
Proof.
  split; [|split; [|split; [|reflexivity]]].
  - intros t N D q ve HN Eq Hf Hq i.
    assert (Hidx : energy_idx t N D = Py.Ok i).
    { rewrite (energy_idx_of_quotient _ _ _ _ Eq), (int_finite _ Hf).
      cbn [Py.rbind]. f_equal. subst i. unfold clamp.
      destruct (Qlt_le_dec (B64.to_Q q) 0) as [Hneg|Hpos].
      - destruct (int_small_negative _ Hq Hneg) as [-> ->]. lia.
      - rewrite (int_floor _ Hpos).
        assert (0 <= Qfloor (B64.to_Q q))%Z.
        { change 0%Z with (Qfloor 0). apply Qfloor_resp_le. assumption. }
        lia. }
    assert (Hrange : (0 <= i <= N - 1)%Z) by (subst i; unfold clamp; lia).
    repeat split; try lia; try assumption.
    intro Hlen. unfold current_energy.
    destruct (N >? 0)%Z eqn:E; [|rewrite Z.gtb_ltb in E; apply Z.ltb_ge in E; lia].
    rewrite Hidx. simpl.
    destruct ve as [|e ve'].
    + unfold Py.len in Hlen. simpl in Hlen. lia.
    + apply getitem_in_range. lia.
  - intros t N D q HN Ht HD Eq. apply to_Q_not_negative.
    apply (lookup_quotient_not_negative t N D q); [lia | assumption..].
  - intros t N D q Eq Hf.
    destruct (int_not_finite q Hf) as (e & Ee & He).
    exists e. split; [|exact He].
    rewrite (energy_idx_of_quotient _ _ _ _ Eq), Ee. reflexivity.
Qed.

(** The amended C1 at [t = 5.0], past the end of a three-sample track of two
    seconds, and at [t = 8/30] of a track of 5625 samples and 60 seconds,
    where the float quotient is 25.0 (the exact one is just below 25). *)
Lemma C1_energy_lookup_clamped_witness :
  energy_idx (B64.lit 5%float) 3 (B64.lit 2%float) = Py.Ok 2%Z
  /\ current_energy (B64.lit 5%float) [(1#4); (1#2); 1] 3 (B64.lit 2%float)
     = Py.Ok 1
  /\ lookup_quotient (B64.lit 0x1.1111111111111p-2%float) 5625 (B64.lit 60%float)
     = Py.Ok (B64.lit 25%float)
  /\ energy_idx (B64.lit 0x1.1111111111111p-2%float) 5625 (B64.lit 60%float)
     = Py.Ok 25%Z.
Proof.
  destruct C1_energy_lookup_clamped as [H _].
  destruct (H (B64.lit 5%float) 3%Z (B64.lit 2%float)
              (B64.lit 0x1.ep+2%float) [(1#4); (1#2); 1])
    as (H1 & _ & H3);
    [reflexivity | vm_compute; reflexivity | reflexivity | reflexivity |].
  assert (Eq : lookup_quotient (B64.lit 0x1.1111111111111p-2%float) 5625
                 (B64.lit 60%float) = Py.Ok (B64.lit 25%float))
    by (vm_compute; reflexivity).
  destruct (H (B64.lit 0x1.1111111111111p-2%float) 5625%Z (B64.lit 60%float)
              (B64.lit 25%float) [] eq_refl Eq eq_refl eq_refl)
    as (H4 & _ & _).
  split; [exact H1|]. split; [exact (H3 eq_refl)|].
  split; [exact Eq | exact H4].
Defined.

(** ** Loops and ranges *)

Lemma in_range (lo hi k : Z) : In k (Py.range lo hi) <-> (lo <= k < hi)%Z.
Proof.
  unfold Py.range. rewrite in_map_iff. split.
  - intros (m & <- & Hm). apply in_seq in Hm. lia.
  - intros H. exists (Z.to_nat (k - lo)). split; [lia|].
    apply in_seq. lia.
Qed.

Lemma length_range (lo hi : Z) : length (Py.range lo hi) = Z.to_nat (hi - lo).
Proof. unfold Py.range. rewrite length_map, length_seq. reflexivity. Qed.

(** A property of accumulator and generator state that every pass of the
    body keeps holds when the loop ends. *)
Lemma for_each_invariant {A S} (I : S -> nat -> Prop) (l : list A)
    (body : S -> A -> Rand S) :
  (forall acc x n, In x l -> I acc n ->
                   I (fst (body acc x n)) (snd (body acc x n))) ->
  forall acc n, I acc n ->
                I (fst (for_each l body acc n)) (snd (for_each l body acc n)).
Proof.
  induction l as [|x l IH]; intros Hbody acc n HI; simpl.
  - exact HI.
  - unfold bind. specialize (Hbody acc x n (or_introl eq_refl) HI) as Hx.
    destruct (body acc x n) as [acc' n']. simpl in Hx.
    apply IH; [|exact Hx].
    intros acc0 y m Hy. apply Hbody. right. exact Hy.
Qed.

(** The number of draws a loop consumes is the sum over its passes. *)
Lemma for_each_cursor {A S} (cost : A -> nat) (l : list A)
    (body : S -> A -> Rand S) :
  (forall acc x n, snd (body acc x n) = (n + cost x)%nat) ->
  forall acc n, snd (for_each l body acc n) = (n + list_sum (map cost l))%nat.
Proof.
  intro Hbody. induction l as [|x l IH]; intros acc n; simpl.
  - lia.
  - unfold bind. specialize (Hbody acc x n).
    destruct (body acc x n) as [acc' n']. simpl in Hbody.
    rewrite IH. lia.
Qed.

Lemma list_sum_ones {A} (l : list A) : list_sum (map (fun _ => 1%nat) l) = length l.
Proof. induction l; simpl; lia. Qed.

(** ** What reset builds *)

Lemma math_pi_pos : 0 < math_pi.
Proof. reflexivity. Qed.

Lemma uniform_range (a b r : Q) :
  a <= b -> 0 <= r -> r < 1 ->
  a <= a + (b - a) * r /\ a + (b - a) * r <= b /\ (a < b -> a + (b - a) * r < b).
Proof.
  intros Hab H0 H1.
  assert (Hw : 0 <= b - a) by lra.
  assert (Hp : 0 <= (b - a) * r) by (apply Qmult_le_0_compat; assumption).
  assert (Hq : (b - a) * r <= (b - a) * 1).
  { destruct (Qeq_dec (b - a) 0) as [E|E].
    - rewrite E. lra.
    - apply Qmult_le_l; [lra | apply Qlt_le_weak; assumption]. }
  split; [lra|]. split; [lra|].
  intro Hlt.
  assert (Hs : (b - a) * r < (b - a) * 1) by (apply Qmult_lt_l; lra).
  lra.
Qed.

Section ResetFacts.

Variable draws : nat -> Q.

Lemma uniform_eq (a b : Q) (n : nat) :
  uniform draws a b n = (a + (b - a) * draws n, S n).
Proof. reflexivity. Qed.

Lemma new_star_eq (n : nat) :
  new_star draws n
  = ({| angle_offset := -1 + (1 - -1) * draws n;
        dist_offset := 1 + (2 - 1) * draws (S n);
        pulse_phase := 0 + (2 * math_pi - 0) * draws (S (S n)) |},
     S (S (S n))).
Proof. reflexivity. Qed.

Lemma new_star_in_range (n : nat) :
  unit_interval draws -> star_in_range (fst (new_star draws n)).
Proof.
  intro U. rewrite new_star_eq. unfold star_in_range. simpl.
  destruct (U n) as [A0 A1], (U (S n)) as [B0 B1], (U (S (S n))) as [C0 C1].
  pose proof math_pi_pos as Hpi.
  destruct (uniform_range (-1) 1 _ ltac:(lra) A0 A1) as (? & ? & _).
  destruct (uniform_range 1 2 _ ltac:(lra) B0 B1) as (? & ? & _).
  destruct (uniform_range 0 (2 * math_pi) _ ltac:(lra) C0 C1) as (? & _ & Hlt).
  repeat split; try assumption. apply Hlt. lra.
Qed.

Lemma add_star_eq (acc : list Star) (x : Z) (n : nat) :
  add_star draws acc x n = (acc ++ [fst (new_star draws n)], S (S (S n))).
Proof. reflexivity. Qed.

(** The star loop appends one star per pass and draws three numbers for it. *)
Lemma star_loop (l : list Z) (acc : list Star) (n : nat) :
  let r := for_each l (add_star draws) acc n in
  length (fst r) = (length acc + length l)%nat
  /\ snd r = (n + 3 * length l)%nat
  /\ (unit_interval draws -> Forall star_in_range acc ->
      Forall star_in_range (fst r)).
Proof.
  revert acc n. induction l as [|x l IH]; intros acc n; cbv zeta.
  - simpl. repeat split; try lia. intros _ H. exact H.
  - cbn [for_each]. unfold bind. rewrite add_star_eq.
    specialize (IH (acc ++ [fst (new_star draws n)]) (S (S (S n)))).
    cbv zeta in IH. destruct IH as (IH1 & IH2 & IH3).
    rewrite IH1, IH2, length_app. cbn [length].
    repeat split; try lia.
    intros U Hacc. apply IH3; [exact U|].
    apply Forall_app. split; [exact Hacc|].
    constructor; [|constructor].
    apply new_star_in_range. exact U.
Qed.

Lemma make_stars_spec (n : nat) :
  Py.len (fst (make_stars draws n)) = STARS_PER_GROUP
  /\ snd (make_stars draws n) = (n + 21)%nat
  /\ (unit_interval draws -> Forall star_in_range (fst (make_stars draws n))).
Proof.
  unfold make_stars.
  destruct (star_loop (Py.range 0 STARS_PER_GROUP) [] n) as (H1 & H2 & H3).
  unfold Py.len. rewrite H1, H2. repeat split.
  intro U. apply H3; [exact U | constructor].
Qed.

Lemma maybe_connect_eq (i j : Z) (acc : list Connection) (n : nat) :
  maybe_connect draws i acc j n
  = (if Py.ltb (draws n) CONNECT_PROBABILITY
     then acc ++ [{| conn_stars := (i, j); alpha := 0; active := false |}]
     else acc, S n).
Proof.
  unfold maybe_connect, bind, random, ret.
  destruct (Py.ltb (draws n) CONNECT_PROBABILITY); reflexivity.
Qed.

(** Every connection [reset] creates is fresh and joins two distinct stars
    of the list, the smaller index first. *)
Lemma make_connections_spec (m : Z) (n : nat) :
  Forall (fun c => fresh c /\ indexes m c) (fst (make_connections draws m n)).
Proof.
  unfold make_connections.
  apply (for_each_invariant
           (fun acc _ => Forall (fun c => fresh c /\ indexes m c) acc));
    [|constructor].
  intros acc i k Hi Hacc. apply in_range in Hi.
  apply (for_each_invariant
           (fun acc _ => Forall (fun c => fresh c /\ indexes m c) acc));
    [|exact Hacc].
  intros acc' j k' Hj Hacc'. apply in_range in Hj.
  rewrite maybe_connect_eq. cbn [fst].
  destruct (Py.ltb (draws k') CONNECT_PROBABILITY); [|exact Hacc'].
  apply Forall_app. split; [exact Hacc'|].
  constructor; [|constructor].
  unfold fresh, indexes. simpl. repeat split; lia.
Qed.

(** One draw per unordered pair of stars. *)
Lemma make_connections_cursor (m : Z) (n : nat) :
  snd (make_connections draws m n)
  = (n + list_sum (map (fun i => Z.to_nat (m - (i + 1))) (Py.range 0 m)))%nat.
Proof.
  unfold make_connections. apply for_each_cursor.
  intros acc i k.
  rewrite (for_each_cursor (fun _ => 1%nat)).
  - rewrite list_sum_ones, length_range. reflexivity.
  - intros acc' j k'. rewrite maybe_connect_eq. simpl. lia.
Qed.

Lemma reset_eq (g : StarGroup) (n : nat) :
  reset draws g n
  = ({| gid := gid g;
        stars := fst (make_stars draws (S (S n)));
        connections :=
          fst (make_connections draws (Py.len (fst (make_stars draws (S (S n)))))
                 (snd (make_stars draws (S (S n)))));
        angle := 0 + (2 * math_pi - 0) * draws n;
        speed := BASE_SPEED;
        distance := 0 + (200 - 0) * draws (S n) |},
     snd (make_connections draws (Py.len (fst (make_stars draws (S (S n)))))
            (snd (make_stars draws (S (S n)))))).
Proof.
  unfold reset. unfold bind at 1. rewrite uniform_eq.
  unfold bind at 1. rewrite uniform_eq.
  unfold bind at 1. destruct (make_stars draws (S (S n))) as [st k].
  unfold bind at 1. cbn [fst snd].
  destruct (make_connections draws (Py.len st) k) as [cs k']. reflexivity.
Qed.

(** [reset] consumes 44 draws: two for heading and distance, three per
    star, one per pair of stars. *)
Lemma reset_cursor (g : StarGroup) (n : nat) :
  snd (reset draws g n) = (n + 44)%nat.
Proof.
  rewrite reset_eq. cbn [snd].
  destruct (make_stars_spec (S (S n))) as (-> & -> & _).
  rewrite make_connections_cursor.
  change (list_sum (map (fun i => Z.to_nat (STARS_PER_GROUP - (i + 1)))
                      (Py.range 0 STARS_PER_GROUP))) with 21%nat.
  lia.
Qed.

End ResetFacts.

(** ** The two branches of update *)

Section UpdateBranches.

Variable draws : nat -> Q.
Variables math_cos math_sin : Q -> Q.

Lemma update_resets (time vocal_energy : Q) (g : StarGroup) (n : nat) :
  leaves_screen math_cos math_sin g = true ->
  update draws math_cos math_sin time vocal_energy g n
  = reset draws (advance g) n.
Proof.
  unfold leaves_screen, update.
  destruct (center math_cos math_sin (advance g)) as [x y].
  intros ->. reflexivity.
Qed.

Lemma update_stays (time vocal_energy : Q) (g : StarGroup) (n : nat) :
  leaves_screen math_cos math_sin g = false ->
  update draws math_cos math_sin time vocal_energy g n
  = ({| gid := gid g; stars := stars g;
        connections :=
          map (update_connection (Py.int (time / BEAT_DURATION))) (connections g);
        angle := angle g; speed := next_speed g;
        distance := distance g + next_speed g |}, n).
Proof.
  unfold leaves_screen, update.
  destruct (center math_cos math_sin (advance g)) as [x y].
  intros ->. reflexivity.
Qed.

(** A property of groups that [reset] establishes and an update that stays
    on screen keeps holds throughout a group's life. *)
Lemma life_invariant (P : StarGroup -> Prop) :
  (forall g n, P (fst (reset draws g n))) ->
  (forall time g, leaves_screen math_cos math_sin g = false -> P g ->
     P {| gid := gid g; stars := stars g;
          connections :=
            map (update_connection (Py.int (time / BEAT_DURATION))) (connections g);
          angle := angle g; speed := next_speed g;
          distance := distance g + next_speed g |}) ->
  forall group_id calls n,
    P (fst (life draws math_cos math_sin group_id calls n)).
Proof.
  intros Hreset Hstay group_id calls n.
  unfold life, bind.
  assert (Hinit : P (fst (StarGroup_init draws group_id n))) by apply Hreset.
  destruct (StarGroup_init draws group_id n) as [g k]. cbn [fst] in Hinit.
  unfold run.
  apply (for_each_invariant (fun g _ => P g)); [|exact Hinit].
  intros g0 c m _ Hg0. destruct c as [time e|]; cbn [do_call].
  - destruct (leaves_screen math_cos math_sin g0) eqn:L.
    + rewrite (update_resets _ _ _ _ L). apply Hreset.
    + rewrite (update_stays _ _ _ _ L). cbn [fst]. apply Hstay; assumption.
  - apply Hreset.
Qed.

End UpdateBranches.

(** What one pass of the loop body does to a connection, by the parity of the
    beat index. *)
Lemma update_connection_even (b : Z) (c : Connection) :
  Z.even b = true ->
  update_connection b c
  = {| conn_stars := conn_stars c;
       alpha := Py.min 255 ((if active c then alpha c else 0) + alpha_change);
       active := true |}.
Proof.
  intro E. unfold update_connection. rewrite Zmod_even, E. simpl.
  destruct c as [p a [|]]; reflexivity.
Qed.

Lemma update_connection_odd (b : Z) (c : Connection) :
  Z.even b = false ->
  update_connection b c
  = {| conn_stars := conn_stars c;
       alpha := Py.max 0 (alpha c - alpha_change);
       active := false |}.
Proof.
  intro E. unfold update_connection. rewrite Zmod_even, E. simpl.
  destruct c as [p a [|]]; reflexivity.
Qed.


(** The two branches of [update_binary64]: the test of lines 103-104 is the
    one of [update], and a reset never reads the clock. *)
Lemma update_binary64_resets (draws : nat -> Q) (math_cos math_sin : Q -> Q)
    (t : B64.float) (e : Q) (g : StarGroup) (n : nat) :
  leaves_screen math_cos math_sin g = true ->
  update_binary64 draws math_cos math_sin t e g n
  = (Py.Ok (fst (reset draws (advance g) n)), snd (reset draws (advance g) n)).
Proof.
  unfold leaves_screen, update_binary64.
  destruct (center math_cos math_sin (advance g)) as [cx cy]. intros ->.
  unfold bind, ret. destruct (reset draws (advance g) n). reflexivity.
Qed.

Lemma update_binary64_stays (draws : nat -> Q) (math_cos math_sin : Q -> Q)
    (t : B64.float) (e : Q) (g : StarGroup) (n : nat) :
  leaves_screen math_cos math_sin g = false ->
  update_binary64 draws math_cos math_sin t e g n
  = (Py.rbind (beat_index_binary64 t)
       (fun beat_index =>
          Py.Ok {| gid := gid g; stars := stars g;
                   connections := map (update_connection beat_index) (connections g);
                   angle := angle g; speed := next_speed g;
                   distance := distance g + next_speed g |}), n).
Proof.
  unfold leaves_screen, update_binary64.
  destruct (center math_cos math_sin (advance g)) as [cx cy]. intros ->.
  reflexivity.
Qed.

Lemma beat_duration_binary64 :
  BEAT_DURATION_binary64 = B64.lit 0x1.6969696969697p-1%float
  /\ BEAT_DURATION < B64.to_Q BEAT_DURATION_binary64
  /\ not_negative BEAT_DURATION_binary64
  /\ B64.is_zero BEAT_DURATION_binary64 = false.
Proof. repeat split. Qed.

Lemma beat_index_quotient (t : B64.float) :
  beat_index_binary64 t = B64.int (B64.fdiv t BEAT_DURATION_binary64).
Proof. reflexivity. Qed.

(** ** C2: beat-synchronised activation *)

(** C2, as stated, fails for negative timestamps, where [int] truncates toward
    zero and is not the floor.  At [t = -0.1] the floor of [t / BEAT_DURATION]
    is [-1], odd, so the claim has an active connection switched off; the code
    computes beat index 0, keeps it active and raises its opacity.  The group
    heads along the x axis ([math.cos(0.0)] is 1 and [math.sin(0.0)] is 0) and
    stays on screen. *)
Lemma C2_counterexample :
  let conn := {| conn_stars := (0, 1)%Z; alpha := 100; active := true |} in
  let g := {| gid := 0; stars := []; connections := [conn];
              angle := 0; speed := 3; distance := 100 |} in
  let t := B64.lit (-0x1.999999999999ap-4)%float in
  let q := B64.fdiv t BEAT_DURATION_binary64 in
  Qfloor (B64.to_Q q) = (-1)%Z
  /\ Z.odd (Qfloor (B64.to_Q q)) = true
  /\ beat_index_binary64 t = Py.Ok 0%Z
  /\ (forall (draws : nat -> Q) (math_cos math_sin : Q -> Q)
             (vocal_energy : Q) (n : nat),
        math_cos 0 = 1 -> math_sin 0 = 0 ->
        leaves_screen math_cos math_sin g = false
        /\ exists g',
             update_binary64 draws math_cos math_sin t vocal_energy g n
             = (Py.Ok g', n)
             /\ map active (connections g') = [true]).
Proof.
  cbv zeta. split; [vm_compute; reflexivity|]. split; [vm_compute; reflexivity|].
  split; [vm_compute; reflexivity|].
  intros draws math_cos math_sin e n Hc Hs.
  assert (L : leaves_screen math_cos math_sin
                {| gid := 0; stars := [];
                   connections := [{| conn_stars := (0, 1)%Z; alpha := 100; active := true |}];
                   angle := 0; speed := 3; distance := 100 |} = false).
  { unfold leaves_screen, center, advance. cbn [angle distance].
    rewrite Hc, Hs. vm_compute. reflexivity. }
  split; [exact L|].
  rewrite (update_binary64_stays _ _ _ _ _ _ _ L).
  eexists. split; reflexivity.
Qed.

(** C2 (amended): for every update at a float timestamp [t] that does not
    trigger a reset, with [beat_index = int(t / BEAT_DURATION)] as the
    interpreter computes it (the float quotient by the float 60/85,
    truncated toward zero, which is the floor of that quotient whenever [t]
    is not negative): the connection list keeps its length and every
    connection its star pair; if [beat_index] is even every inactive
    connection becomes active with its opacity restarted at 0 and ramped
    once; if it is odd every active connection becomes inactive; and after
    the update every connection's active flag is the parity of [beat_index],
    whatever the group and the connection.  When the quotient is an infinity
    or NaN, [int()] raises [OverflowError] or [ValueError] and so does the
    update. *)
Theorem C2_beat_toggle (draws : nat -> Q) (math_cos math_sin : Q -> Q)
    (t : B64.float) (vocal_energy : Q) (g : StarGroup) (n : nat) :
  leaves_screen math_cos math_sin g = false ->
  (forall beat_index : Z,
      beat_index_binary64 t = Py.Ok beat_index ->
      exists g',
        update_binary64 draws math_cos math_sin t vocal_energy g n = (Py.Ok g', n)
        /\ (not_negative t ->
            beat_index = Qfloor (B64.to_Q (B64.fdiv t BEAT_DURATION_binary64)))
        /\ length (connections g') = length (connections g)
        /\ forall (k : nat) (c : Connection),
             nth_error (connections g) k = Some c ->
             exists c', nth_error (connections g') k = Some c'
               /\ conn_stars c' = conn_stars c
               /\ (Z.even beat_index = true -> active c = false ->
                   active c' = true /\ alpha c' = Py.min 255 (0 + alpha_change)
                   /\ alpha c' == alpha_change)
               /\ (Z.odd beat_index = true -> active c = true -> active c' = false)
               /\ active c' = Z.even beat_index)
  /\ (forall err : Py.exn,
        beat_index_binary64 t = Py.Raise err ->
        update_binary64 draws math_cos math_sin t vocal_energy g n
        = (Py.Raise err, n)
        /\ (err = Py.OverflowError \/ err = Py.ValueError)).
Proof.
  intros L. rewrite (update_binary64_stays _ _ _ _ _ _ _ L). split.
  - intros beat_index Eb. rewrite Eb. cbn [Py.rbind].
    eexists. split; [reflexivity|]. cbn [connections].
    split; [|split; [apply length_map|]].
    + intro Ht. rewrite beat_index_quotient in Eb.
      apply int_ok in Eb. destruct Eb as [_ ->].
      apply int_floor, to_Q_not_negative, div_not_negative;
        [exact Ht | reflexivity | reflexivity].
    + intros k c Hk. exists (update_connection beat_index c).
      split; [rewrite nth_error_map, Hk; reflexivity|].
      destruct (Z.even beat_index) eqn:E.
      * rewrite (update_connection_even _ _ E). cbn [conn_stars active alpha].
        split; [reflexivity|]. split; [|split; [|reflexivity]].
        -- intros _ Ha. rewrite Ha. split; [reflexivity|]. split; reflexivity.
        -- intros Ho _. rewrite <- Z.negb_even, E in Ho. discriminate Ho.
      * rewrite (update_connection_odd _ _ E). cbn [conn_stars active alpha].
        split; [reflexivity|]. split; [|split; [|reflexivity]].
        -- intro F. discriminate F.
        -- reflexivity.
  - intros err Eb. rewrite Eb. split; [reflexivity|].
    rewrite beat_index_quotient in Eb.
    destruct (B64.finite (B64.fdiv t BEAT_DURATION_binary64)) eqn:F.
    + rewrite (int_finite _ F) in Eb. discriminate Eb.
    + destruct (int_not_finite _ F) as (e & Ee & He).
      rewrite Ee in Eb. injection Eb as <-. exact He.
Qed.

(** The amended C2 at [t = 84.0], frame 2520 of the video, on a group that
    sits at the canvas centre with one inactive connection: the float
    quotient is just below 119, the beat index is 118, and the connection is
    switched on.  The trigonometric functions are only read at heading 0. *)
Lemma C2_beat_toggle_witness :
  let c := {| conn_stars := (0, 1)%Z; alpha := 0; active := false |} in
  let g := {| gid := 0; stars := []; connections := [c];
              angle := 0; speed := 3; distance := 0 |} in
  leaves_screen (fun _ => 1) (fun _ => 0) g = false
  /\ beat_index_binary64 (B64.lit 84%float) = Py.Ok 118%Z
  /\ exists g' c',
       update_binary64 (fun _ => 0) (fun _ => 1) (fun _ => 0)
         (B64.lit 84%float) 0 g 0%nat = (Py.Ok g', 0%nat)
       /\ nth_error (connections g') 0 = Some c'
       /\ active c' = true /\ alpha c' == alpha_change.
Proof.
  cbv zeta. split; [vm_compute; reflexivity|]. split; [vm_compute; reflexivity|].
  destruct (C2_beat_toggle (fun _ => 0) (fun _ => 1) (fun _ => 0)
              (B64.lit 84%float) 0
              {| gid := 0; stars := [];
                 connections := [{| conn_stars := (0, 1)%Z; alpha := 0; active := false |}];
                 angle := 0; speed := 3; distance := 0 |}
              0%nat eq_refl) as [H _].
  destruct (H 118%Z eq_refl) as (g' & E & _ & _ & Hc).
  destruct (Hc 0%nat {| conn_stars := (0, 1)%Z; alpha := 0; active := false |} eq_refl)
    as (c' & Hn & _ & Hon & _).
  destruct (Hon eq_refl eq_refl) as (Ha & _ & Hv).
  exists g', c'. repeat split; assumption.
Defined.

(** ** C3: opacity stays within [0, 255] *)

Lemma alpha_change_pos : 0 < alpha_change.
Proof. reflexivity. Qed.



Lemma update_connection_in_range (b : Z) (c : Connection) :
  opacity_in_range c -> opacity_in_range (update_connection b c).
Proof.
  intros [H0 H1]. pose proof alpha_change_pos as Hd. unfold opacity_in_range.
  destruct (Z.even b) eqn:E.
  - rewrite (update_connection_even _ _ E). cbn [alpha].
    apply min_255_bounds. destruct (active c); lra.
  - rewrite (update_connection_odd _ _ E). cbn [alpha].
    apply max_0_bounds. lra.
Qed.

Lemma reset_connections (draws : nat -> Q) (g : StarGroup) (n : nat) :
  Forall (fun c => fresh c /\ indexes (Py.len (stars (fst (reset draws g n)))) c)
         (connections (fst (reset draws g n))).
Proof.
  rewrite reset_eq. cbn [fst connections stars]. apply make_connections_spec.
Qed.


(** ** C4: leaving the expanded canvas triggers the reset *)



(** ** C5: the state reset leaves behind *)

Lemma reset_post (draws : nat -> Q) (g : StarGroup) (n : nat) :
  unit_interval draws ->
  let g' := fst (reset draws g n) in
  (0 <= angle g' /\ angle g' < 2 * math_pi)
  /\ (0 <= distance g' /\ distance g' <= 200)
  /\ speed g' = BASE_SPEED
  /\ Py.len (stars g') = STARS_PER_GROUP
  /\ Forall star_in_range (stars g')
  /\ Forall fresh (connections g').
Proof.
  intros U g'.
  assert (Hc : Forall fresh (connections g')).
  { eapply Forall_impl; [|apply reset_connections]. intros c [Hf _]. exact Hf. }
  subst g'. rewrite reset_eq in *. cbn [fst angle distance speed stars] in *.
  destruct (U n) as [A0 A1], (U (S n)) as [B0 B1].
  pose proof math_pi_pos as Hpi.
  destruct (uniform_range 0 (2 * math_pi) _ ltac:(lra) A0 A1) as (? & _ & Hlt).
  destruct (uniform_range 0 200 _ ltac:(lra) B0 B1) as (? & ? & _).
  destruct (make_stars_spec draws (S (S n))) as (Hlen & _ & Hst).
  repeat split; try assumption.
  - apply Hlt. lra.
  - apply Hst. exact U.
Qed.

Lemma quarter_draws_unit : unit_interval quarter_draws.
Proof.
  intro k. unfold quarter_draws, Qle, Qlt. cbn [Qnum Qden].
  pose proof (Nat.mod_upper_bound k 4 ltac:(discriminate)). lia.
Qed.

(** C5: after [reset], whatever the random source returns within [0, 1):
    the heading is in [0, 2 pi), the distance in [0, 200], the speed is the
    base speed, there are exactly [STARS_PER_GROUP] stars, each with angular
    offset in [-1, 1], distance scale in [1, 2] and pulse phase in [0, 2 pi),
    and every connection has opacity 0 and is inactive. *)
Theorem C5_reset_postcondition (draws : nat -> Q) (g : StarGroup) (n : nat) :
  unit_interval draws ->
  let g' := fst (reset draws g n) in
  (0 <= angle g' /\ angle g' < 2 * math_pi)
  /\ (0 <= distance g' /\ distance g' <= 200)
  /\ speed g' = BASE_SPEED
  /\ Py.len (stars g') = STARS_PER_GROUP
  /\ Forall (fun s => (-1 <= angle_offset s /\ angle_offset s <= 1)
                      /\ (1 <= dist_offset s /\ dist_offset s <= 2)
                      /\ (0 <= pulse_phase s /\ pulse_phase s < 2 * math_pi))
            (stars g')
  /\ Forall (fun c => alpha c = 0 /\ active c = false) (connections g').
Proof.
  intro U. exact (reset_post draws g n U).
Qed.

(** C5 on the scripted source, from an empty group. *)
Lemma C5_reset_postcondition_witness :
  unit_interval quarter_draws
  /\ Py.len (stars (fst (reset quarter_draws empty_group 0%nat))) = 7%Z
  /\ distance (fst (reset quarter_draws empty_group 0%nat)) <= 200.
Proof.
  split; [exact quarter_draws_unit|].
  pose proof (C5_reset_postcondition quarter_draws empty_group 0%nat quarter_draws_unit)
    as (_ & (_ & Hd) & _ & Hl & _).
  split; [exact Hl | exact Hd].
Defined.

(** ** C6: the distance never decreases between resets *)

Lemma screen_diagonal_pos : 0 < SCREEN_DIAGONAL.
Proof. reflexivity. Qed.

(** [SCREEN_DIAGONAL] is the binary64 number nearest to the square root of
    [WIDTH**2 + HEIGHT**2]: the midpoints to its two neighbours (half a unit
    in the last place, 2^-42, away) bracket the root. *)
Lemma screen_diagonal_nearest :
  (SCREEN_DIAGONAL - (1 # 2 ^ 42)) ^ 2 < inject_Z (WIDTH ^ 2 + HEIGHT ^ 2)
  /\ inject_Z (WIDTH ^ 2 + HEIGHT ^ 2) < (SCREEN_DIAGONAL + (1 # 2 ^ 42)) ^ 2.
Proof. split; reflexivity. Qed.

Lemma next_speed_lower_bound (g : StarGroup) :
  0 <= distance g -> BASE_SPEED <= next_speed g.
Proof.
  intro H. unfold next_speed.
  assert (Hr : 0 <= distance g / SCREEN_DIAGONAL).
  { apply Qle_shift_div_l; [exact screen_diagonal_pos | lra]. }
  pose proof (Qpower_0_le _ 3 Hr) as Hp.
  assert (Hm : 0 <= (MAX_SPEED - BASE_SPEED) * (distance g / SCREEN_DIAGONAL) ^ 3).
  { apply Qmult_le_0_compat; [discriminate | exact Hp]. }
  lra.
Qed.

Section Distance.

Variable draws : nat -> Q.
Variables math_cos math_sin : Q -> Q.
Hypothesis draws_unit : unit_interval draws.

Lemma life_distance_nonneg (group_id : Z) (calls : list call) (n : nat) :
  0 <= distance (fst (life draws math_cos math_sin group_id calls n)).
Proof.
  apply (life_invariant draws math_cos math_sin (fun g => 0 <= distance g)).
  - intros g k. destruct (reset_post draws g k draws_unit) as (_ & [H _] & _).
    exact H.
  - intros time g _ Hg. cbn [distance].
    pose proof (next_speed_lower_bound g Hg) as Hs.
    assert (0 <= BASE_SPEED) by discriminate. lra.
Qed.

Lemma no_reset_distance (calls : list call) :
  forall g n, 0 <= distance g ->
    no_reset draws math_cos math_sin calls g n = true ->
    distance g <= distance (fst (run draws math_cos math_sin calls g n)).
Proof.
  induction calls as [|c calls IH]; intros g n Hg Hn.
  - simpl. lra.
  - destruct c as [time e|]; [|discriminate Hn].
    cbn [no_reset] in Hn. apply andb_true_iff in Hn. destruct Hn as [L Hn].
    apply negb_true_iff in L.
    unfold run. cbn [for_each do_call]. unfold bind.
    rewrite (update_stays _ _ _ _ _ _ _ L) in *. cbn [fst snd] in Hn.
    pose proof (next_speed_lower_bound g Hg) as Hs.
    assert (H0 : 0 <= BASE_SPEED) by discriminate.
    eapply Qle_trans; [|apply (IH _ _)]; [| |exact Hn];
      cbn [distance]; lra.
Qed.

End Distance.

(** C6: at every state [g] a group reaches in its life, [distance g >= 0];
    an update sets the speed to
    [BASE_SPEED + (MAX_SPEED - BASE_SPEED) * (distance / SCREEN_DIAGONAL) ** 3],
    which is at least [BASE_SPEED >= 0], and, unless it resets the group, adds
    that speed to the distance; so over any further stretch of updates without
    a reset the distance does not decrease. *)
Theorem C6_distance_monotone (draws : nat -> Q) (math_cos math_sin : Q -> Q)
    (group_id : Z) (calls : list call) (n : nat) :
  unit_interval draws ->
  let r := life draws math_cos math_sin group_id calls n in
  let g := fst r in
  let s := BASE_SPEED
           + (MAX_SPEED - BASE_SPEED) * (distance g / SCREEN_DIAGONAL) ^ 3 in
  0 <= distance g
  /\ (0 <= BASE_SPEED /\ BASE_SPEED <= s)
  /\ (forall t vocal_energy k,
        leaves_screen math_cos math_sin g = false ->
        let g' := fst (update draws math_cos math_sin t vocal_energy g k) in
        speed g' = s /\ distance g' = distance g + s
        /\ distance g <= distance g')
  /\ (forall more k,
        no_reset draws math_cos math_sin more g k = true ->
        distance g <= distance (fst (run draws math_cos math_sin more g k))).
Proof.
  intros U r g s.
  assert (Hg : 0 <= distance g) by (apply life_distance_nonneg; exact U).
  pose proof (next_speed_lower_bound g Hg) as Hs. change (next_speed g) with s in Hs.
  split; [exact Hg|]. split; [split; [discriminate | exact Hs]|]. split.
  - intros t e k L g'. subst g'. rewrite (update_stays _ _ _ _ _ _ _ L).
    cbn [fst speed distance]. change (next_speed g) with s.
    split; [reflexivity|]. split; [reflexivity|].
    assert (0 <= BASE_SPEED) by discriminate. lra.
  - intros more k Hn. apply no_reset_distance; assumption.
Qed.

(** C6 on the scripted source read from cursor 2: construction leaves the
    group with heading 0 and distance 50, so the trigonometric functions are
    only read at heading 0, where they are 1 and 0; two updates in a row stay
    on screen. *)
Lemma C6_distance_monotone_witness :
  let g := fst (life quarter_draws (fun _ => 1) (fun _ => 0) 0%Z [] 2%nat) in
  unit_interval quarter_draws
  /\ (angle g == 0 /\ distance g == 50)
  /\ no_reset quarter_draws (fun _ => 1) (fun _ => 0)
       [Update 0 0; Update (1 # 30) 0] g 48%nat = true
  /\ distance g
     <= distance (fst (run quarter_draws (fun _ => 1) (fun _ => 0)
                         [Update 0 0; Update (1 # 30) 0] g 48%nat)).
Proof.
  cbv zeta. split; [exact quarter_draws_unit|].
  split; [split; reflexivity|].
  assert (Hn : no_reset quarter_draws (fun _ => 1) (fun _ => 0)
                 [Update 0 0; Update (1 # 30) 0]
                 (fst (life quarter_draws (fun _ => 1) (fun _ => 0) 0%Z [] 2%nat))
                 48%nat
               = true) by (vm_compute; reflexivity).
  split; [exact Hn|].
  exact (proj2 (proj2 (proj2
    (C6_distance_monotone quarter_draws (fun _ => 1) (fun _ => 0) 0%Z [] 2%nat
       quarter_draws_unit)))
    [Update 0 0; Update (1 # 30) 0] 48%nat Hn).
Defined.

(** ** C7: update ignores its energy argument *)

(** C7: for every group state, timestamp and state of the random source,
    [update] returns the same group and leaves the random source in the same
    state whatever the energy argument; so replacing the energies of a whole
    sequence of calls changes nothing either. *)
Theorem C7_energy_noninterference (draws : nat -> Q) (math_cos math_sin : Q -> Q)
    (t e1 e2 : Q) (g : StarGroup) (n : nat) :
  update draws math_cos math_sin t e1 g n
  = update draws math_cos math_sin t e2 g n
  /\ forall (f : Q -> Q -> Q) (calls : list call),
       run draws math_cos math_sin (map (with_energy f) calls) g n
       = run draws math_cos math_sin calls g n.
Proof.
  split; [reflexivity|].
  intros f calls. revert g n.
  induction calls as [|c calls IH]; intros g n; [reflexivity|].
  unfold run in *. cbn [map for_each]. unfold bind.
  assert (Hc : do_call draws math_cos math_sin g (with_energy f c) n
               = do_call draws math_cos math_sin g c n)
    by (destruct c; reflexivity).
  rewrite Hc. destruct (do_call draws math_cos math_sin g c n) as [g' n'].
  apply IH.
Qed.

(** ** C8: a full fade-in takes 22 updates *)




(** Rounding does not move the count: on binary64 numbers the opacity is
    still below 255 after 21 updates and is 255 after the 22nd. *)
Lemma ramp_binary64_22 :
  (ramp_binary64_n 21 0 <? 255)%float = true
  /\ ramp_binary64_n 22 0 = 255%float
  /\ Py.Q_of_float alpha_change_binary64 < alpha_change
  /\ alpha_change - Py.Q_of_float alpha_change_binary64 < 1 # 10 ^ 15.
Proof. repeat split; vm_compute; reflexivity. Qed.



(** ** C9: connections index the star list *)

Lemma update_connection_stars (b : Z) (c : Connection) :
  conn_stars (update_connection b c) = conn_stars c.
Proof.
  destruct (Z.even b) eqn:E.
  - rewrite (update_connection_even _ _ E). reflexivity.
  - rewrite (update_connection_odd _ _ E). reflexivity.
Qed.

Lemma endpoints_in_range (g : StarGroup) (c : Connection) (d : Star) :
  indexes (Py.len (stars g)) c ->
  connection_endpoints g c
  = Py.Ok (nth (Z.to_nat (fst (conn_stars c))) (stars g) d,
           nth (Z.to_nat (snd (conn_stars c))) (stars g) d).
Proof.
  unfold indexes, connection_endpoints. destruct (conn_stars c) as [i j].
  cbn [fst snd]. intros (H0 & H1 & H2).
  rewrite (getitem_in_range (stars g) i d) by lia.
  rewrite (getitem_in_range (stars g) j d) by lia.
  reflexivity.
Qed.

(** C9: throughout a group's life (its construction followed by any sequence
    of update and reset calls) every connection's star pair (i, j) satisfies
    0 <= i < j < star_count, with star_count the length of the group's star
    list, and the renderer's two reads [group.stars[i]] and [group.stars[j]]
    succeed and fetch the stars at positions i and j. *)
Theorem C9_connection_indices (draws : nat -> Q) (math_cos math_sin : Q -> Q)
    (group_id : Z) (calls : list call) (n : nat) :
  let g := fst (life draws math_cos math_sin group_id calls n) in
  Forall (fun c =>
            let (i, j) := conn_stars c in
            (0 <= i /\ i < j /\ j < Py.len (stars g))%Z
            /\ exists star1 star2,
                 connection_endpoints g c = Py.Ok (star1, star2)
                 /\ nth_error (stars g) (Z.to_nat i) = Some star1
                 /\ nth_error (stars g) (Z.to_nat j) = Some star2)
         (connections g).
Proof.
  intro g.
  assert (Hinv : Forall (indexes (Py.len (stars g))) (connections g)).
  { subst g.
    apply (life_invariant draws math_cos math_sin
             (fun g => Forall (indexes (Py.len (stars g))) (connections g))).
    - intros g0 k. eapply Forall_impl; [|apply reset_connections].
      intros c [_ Hc]. exact Hc.
    - intros time g0 _ Hg0. cbn [stars connections]. apply Forall_map.
      eapply Forall_impl; [|exact Hg0].
      intros c Hc. unfold indexes. rewrite update_connection_stars. exact Hc. }
  eapply Forall_impl; [|exact Hinv].
  intros c Hc.
  pose proof (endpoints_in_range g c
                {| angle_offset := 0; dist_offset := 0; pulse_phase := 0 |} Hc) as He.
  unfold indexes in Hc. destruct (conn_stars c) as [i j]. cbn [fst snd] in *.
  split; [exact Hc|].
  eexists. eexists. split; [exact He|].
  unfold Py.len in Hc.
  split; apply nth_error_nth'; lia.
Qed.

(** ** C10: construction is a reset after two discarded draws *)

(** C10: [StarGroup(group_id)] draws a heading and a distance and then runs
    [reset], which draws both again: the group it returns is the one [reset]
    builds from the third draw on, so heading and distance come from the third
    and fourth draws; its distance is in [0, 200], its speed is [BASE_SPEED],
    it has [STARS_PER_GROUP] stars and every connection has opacity 0 and is
    inactive; and construction consumes 46 draws where a bare [reset]
    consumes 44. *)
Theorem C10_init_is_reset (draws : nat -> Q) (group_id : Z) (n : nat) :
  unit_interval draws ->
  let r := StarGroup_init draws group_id n in
  let g := fst r in
  (forall g0, gid g0 = group_id -> r = reset draws g0 (n + 2)%nat)
  /\ (angle g = 0 + (2 * math_pi - 0) * draws (n + 2)%nat
      /\ distance g = 0 + (200 - 0) * draws (n + 3)%nat)
  /\ (0 <= distance g /\ distance g <= 200)
  /\ speed g = BASE_SPEED
  /\ Py.len (stars g) = STARS_PER_GROUP
  /\ Forall (fun c => alpha c = 0 /\ active c = false) (connections g)
  /\ (snd r = (n + 46)%nat
      /\ forall g0 k, snd (reset draws g0 k) = (k + 44)%nat).
Proof.
  intros U r g.
  assert (Hr : forall g0, gid g0 = group_id -> r = reset draws g0 (n + 2)%nat).
  { intros g0 Hid. subst r. unfold StarGroup_init, bind. rewrite !uniform_eq.
    replace (n + 2)%nat with (S (S n)) by lia.
    rewrite !reset_eq. cbn [gid]. rewrite Hid. reflexivity. }
  pose (g0 := {| gid := group_id; stars := []; connections := [];
                 angle := 0; speed := 0; distance := 0 |}).
  assert (Eg : g = fst (reset draws g0 (n + 2)%nat))
    by (subst g; rewrite (Hr g0 eq_refl); reflexivity).
  destruct (reset_post draws g0 (n + 2)%nat U) as (_ & Hd & Hs & Hl & _ & Hc).
  rewrite <- Eg in Hd, Hs, Hl, Hc.
  split; [exact Hr|]. split.
  { rewrite Eg, reset_eq. cbn [fst angle distance].
    replace (S (n + 2)) with (n + 3)%nat by lia. split; reflexivity. }
  split; [exact Hd|]. split; [exact Hs|]. split; [exact Hl|]. split; [exact Hc|].
  split.
  - rewrite (Hr g0 eq_refl), reset_cursor. lia.
  - intros g1 k. apply reset_cursor.
Qed.

(** C10 on the scripted source: the first two draws (0 and 1/4) are
    discarded, heading and distance come from the next two (1/2 and 3/4). *)
Lemma C10_init_is_reset_witness :
  unit_interval quarter_draws
  /\ distance (fst (StarGroup_init quarter_draws 0 0%nat)) == 150
  /\ snd (StarGroup_init quarter_draws 0 0%nat) = 46%nat.
Proof.
  split; [exact quarter_draws_unit|].
  pose proof (C10_init_is_reset quarter_draws 0 0%nat quarter_draws_unit)
    as (_ & (_ & Hd) & _ & _ & _ & _ & (Hc & _)).
  split; [rewrite Hd; reflexivity | exact Hc].
Defined.

(** * Beyond the claims: analysis, rendering and the main loop *)

(** ** load_audio keeps the full frames only *)

Lemma frame_at_length (y : list Q) (i : nat) :
  length (frame_at y i) = Nat.min HOP_LENGTH (length y - i).
Proof. unfold frame_at. rewrite length_firstn, length_skipn. reflexivity. Qed.

(** Division of a length by the hop, for [lia]. *)
Ltac hop_division y :=
  unfold HOP_LENGTH in *;
  pose proof (Nat.div_mod_eq (length y) 512);
  pose proof (Nat.mod_upper_bound (length y) 512 ltac:(discriminate));
  pose proof (Nat.div_mod_eq (length y + 512 - 1) 512);
  pose proof (Nat.mod_upper_bound (length y + 512 - 1) 512 ltac:(discriminate)).

Lemma analyse_prefix (frame_energy : list Q -> Q) (y : list Q) (m : nat) :
  fold_left (analyse_frame frame_energy y)
            (map (fun k => (k * HOP_LENGTH)%nat) (seq 0 m)) ([], 0%Z)
  = (map (fun k => frame_energy (frame_at y (k * HOP_LENGTH)))
         (seq 0 (Nat.min m (length y / HOP_LENGTH))),
     Z.of_nat (Nat.min m (length y / HOP_LENGTH))).
Proof.
  induction m as [|m IH].
  - reflexivity.
  - rewrite seq_S, map_app, fold_left_app, IH. cbn [map fold_left Nat.add].
    unfold analyse_frame. rewrite frame_at_length. cbn [fst snd].
    destruct (Nat.ltb_spec (Nat.min HOP_LENGTH (length y - m * HOP_LENGTH))
                           HOP_LENGTH) as [H|H]; hop_division y.
    + replace (Nat.min (S m) (length y / 512)) with (Nat.min m (length y / 512))
        by lia.
      reflexivity.
    + replace (Nat.min (S m) (length y / 512)) with (S m) by lia.
      replace (Nat.min m (length y / 512)) with m by lia.
      rewrite seq_S, map_app. cbn [map Nat.add]. f_equal. lia.
Qed.

Lemma analyse_frames_eq (frame_energy : list Q -> Q) (y : list Q) :
  analyse_frames frame_energy y
  = (map (fun k => frame_energy (frame_at y (k * HOP_LENGTH)))
         (seq 0 (length y / HOP_LENGTH)),
     Z.of_nat (length y / HOP_LENGTH)).
Proof.
  unfold analyse_frames, range_step. rewrite analyse_prefix.
  replace (Nat.min ((length y + HOP_LENGTH - 1) / HOP_LENGTH)
                   (length y / HOP_LENGTH)) with (length y / HOP_LENGTH)%nat
    by (hop_division y; lia).
  reflexivity.
Qed.

(** X1: [load_audio]'s loop keeps exactly the [len(y) // 512] full frames,
    in order, and drops a trailing partial frame: the energy list is the
    frame energy of [y[512 k : 512 (k + 1)]] for [k < len(y) // 512], and
    [frame_count] is its length. *)
Theorem X1_full_frames_only (frame_energy : list Q -> Q) (y : list Q) :
  let full := (length y / HOP_LENGTH)%nat in
  analyse_frames frame_energy y
  = (map (fun k => frame_energy (frame_at y (k * HOP_LENGTH))) (seq 0 full),
     Z.of_nat full)
  /\ Py.len (fst (analyse_frames frame_energy y))
     = snd (analyse_frames frame_energy y)
  /\ Forall (fun k => length (frame_at y (k * HOP_LENGTH)) = HOP_LENGTH)
            (seq 0 full).
Proof.
  intro full.
  assert (E : analyse_frames frame_energy y
              = (map (fun k => frame_energy (frame_at y (k * HOP_LENGTH)))
                     (seq 0 full), Z.of_nat full)).
  { apply analyse_frames_eq. }
  split; [exact E|]. split.
  - rewrite E. cbn [fst snd]. unfold Py.len.
    rewrite length_map, length_seq. reflexivity.
  - apply Forall_forall. intros k Hk. apply in_seq in Hk.
    rewrite frame_at_length. subst full. hop_division y. lia.
Qed.

(** ** load_audio normalises by the largest frame energy *)

Lemma py_max_cases (a b : Q) :
  (Py.max a b = a /\ b <= a) \/ (Py.max a b = b /\ a < b).
Proof.
  unfold Py.max, Py.gtb. destruct (Py.ltb a b) eqn:E.
  - right. split; [reflexivity | apply ltb_lt; exact E].
  - left. split; [reflexivity | apply ltb_ge; exact E].
Qed.

Lemma max_of_upper (rest : list Q) :
  forall first x, In x (first :: rest) -> x <= max_of first rest.
Proof.
  induction rest as [|r rest IH]; intros first x Hx.
  - destruct Hx as [<-|[]]. apply Qle_refl.
  - cbn [max_of fold_left]. fold (max_of (Py.max first r) rest).
    destruct (py_max_cases first r) as [[E Hle]|[E Hlt]].
    + destruct Hx as [<-|[<-|Hx]].
      * apply IH. left. exact E.
      * apply Qle_trans with first; [exact Hle|]. apply IH. left. exact E.
      * apply IH. right. exact Hx.
    + destruct Hx as [<-|[<-|Hx]].
      * apply Qle_trans with r; [apply Qlt_le_weak; exact Hlt|].
        apply IH. left. exact E.
      * apply IH. left. exact E.
      * apply IH. right. exact Hx.
Qed.

Lemma max_of_in (rest : list Q) :
  forall first, In (max_of first rest) (first :: rest).
Proof.
  induction rest as [|r rest IH]; intro first.
  - left. reflexivity.
  - cbn [max_of fold_left]. fold (max_of (Py.max first r) rest).
    destruct (IH (Py.max first r)) as [H|H].
    + destruct (py_max_cases first r) as [[E _]|[E _]]; rewrite E in H |- *.
      * left. exact H.
      * right. left. exact H.
    + right. right. exact H.
Qed.

Lemma normalise_spec (l : list Q) :
  l <> [] -> Forall (fun e => 0 <= e) l ->
  exists l', normalise l = Analysed l'
    /\ length l' = length l
    /\ Forall (fun e => 0 <= e /\ e <= 1) l'
    /\ (Exists (fun e => 0 < e) l -> Exists (fun e => e == 1) l')
    /\ (Forall (fun e => e == 0) l -> Forall (fun e => e == 0) l').
Proof.
  intros Hne Hpos. destruct l as [|first rest]; [congruence|].
  unfold normalise.
  set (m := max_of first rest).
  pose proof (max_of_upper rest first) as Hup. fold m in Hup.
  pose proof (max_of_in rest first) as Hin. fold m in Hin.
  rewrite Forall_forall in Hpos.
  eexists. split; [reflexivity|]. split; [apply length_map|].
  unfold Py.gtb. destruct (Py.ltb 0 m) eqn:E.
  - apply ltb_lt in E. split; [|split].
    + apply Forall_map, Forall_forall. intros e He. split.
      * apply Qle_shift_div_l; [exact E|]. rewrite Qmult_0_l. apply Hpos, He.
      * apply Qle_shift_div_r; [exact E|]. rewrite Qmult_1_l. apply Hup, He.
    + intros _. apply Exists_exists. exists (m / m). split.
      * apply in_map_iff. exists m. split; [reflexivity | exact Hin].
      * field. lra.
    + intro Hz. rewrite Forall_forall in Hz.
      apply Forall_map, Forall_forall. intros e He.
      rewrite (Hz e He). field. lra.
  - apply ltb_ge in E.
    assert (Hz : forall e, In e (first :: rest) -> e == 0).
    { intros e He. apply Qle_antisym; [|apply Hpos, He].
      apply Qle_trans with m; [apply Hup, He | exact E]. }
    split; [|split].
    + apply Forall_map, Forall_forall. intros e He.
      assert (e / 1 == 0) as -> by (rewrite (Hz e He); reflexivity).
      split; discriminate.
    + intro Hex. apply Exists_exists in Hex. destruct Hex as (e & He & Hlt).
      rewrite (Hz e He) in Hlt. discriminate Hlt.
    + intros _. apply Forall_map, Forall_forall. intros e He.
      rewrite (Hz e He). reflexivity.
Qed.

Lemma sum_squares_nonneg (frame : list Q) : 0 <= sum_squares frame.
Proof.
  induction frame as [|x frame IH]; [discriminate|].
  cbn [sum_squares fold_right]. fold (sum_squares frame).
  assert (0 <= x * x) by nra. lra.
Qed.

(** X2: [load_audio] raises [ValueError] exactly on a waveform shorter than
    one hop of 512 samples (no full frame: [max] of an empty list). *)
Theorem X2_short_audio_raises (frame_energy : list Q -> Q) (y : list Q) :
  load_audio frame_energy y = RaiseValueError <-> (length y < HOP_LENGTH)%nat.
Proof.
  unfold load_audio.
  rewrite analyse_frames_eq.
  destruct (length y / HOP_LENGTH)%nat as [|q] eqn:Hq.
  - cbn [seq map normalise]. split; [intros _|reflexivity].
    hop_division y. lia.
  - cbn [seq map normalise]. split; [discriminate|].
    intro H. hop_division y. lia.
Qed.

Lemma load_audio_ok (frame_energy : list Q -> Q) (y : list Q) :
  (forall frame, 0 <= frame_energy frame) ->
  (HOP_LENGTH <= length y)%nat ->
  let full := (length y / HOP_LENGTH)%nat in
  exists vocal_energy,
    load_audio frame_energy y = Analysed (vocal_energy, Z.of_nat full)
    /\ Py.len vocal_energy = Z.of_nat full
    /\ (0 < Z.of_nat full)%Z
    /\ Forall (fun e => 0 <= e /\ e <= 1) vocal_energy
    /\ (Exists (fun k => 0 < frame_energy (frame_at y (k * HOP_LENGTH)))
               (seq 0 full) ->
        Exists (fun e => e == 1) vocal_energy)
    /\ (Forall (fun k => frame_energy (frame_at y (k * HOP_LENGTH)) == 0)
               (seq 0 full) ->
        Forall (fun e => e == 0) vocal_energy).
Proof.
  intros Hpos Hlen full.
  assert (Hfull : (0 < full)%nat) by (subst full; hop_division y; lia).
  unfold load_audio. rewrite analyse_frames_eq. fold full.
  set (raw := map (fun k => frame_energy (frame_at y (k * HOP_LENGTH))) (seq 0 full)).
  assert (Hraw : length raw = full) by (subst raw; rewrite length_map, length_seq; reflexivity).
  destruct (normalise_spec raw) as (l' & -> & Hl & H01 & Hex & Hz).
  - intro E. rewrite E in Hraw. simpl in Hraw. lia.
  - subst raw. apply Forall_map, Forall_forall. intros k _. apply Hpos.
  - exists l'. split; [reflexivity|]. split; [unfold Py.len; lia|].
    split; [lia|]. split; [exact H01|]. split.
    + intro H. apply Hex. subst raw. apply Exists_map. exact H.
    + intro H. apply Hz. subst raw. apply Forall_map. exact H.
Qed.

(** X3: on a waveform of at least 512 samples whose frame energies are
    non-negative, [load_audio] returns [len(y) // 512] energies, all in
    [0, 1]; the largest is 1 if some frame has positive energy, and a silent
    track (all energies 0) is returned as zeros, without a division by
    zero. *)
Theorem X3_energies_normalised (frame_energy : list Q -> Q) (y : list Q) :
  (forall frame, 0 <= frame_energy frame) ->
  (HOP_LENGTH <= length y)%nat ->
  let full := (length y / HOP_LENGTH)%nat in
  exists vocal_energy,
    load_audio frame_energy y = Analysed (vocal_energy, Z.of_nat full)
    /\ Py.len vocal_energy = Z.of_nat full
    /\ (0 < Z.of_nat full)%Z
    /\ Forall (fun e => 0 <= e /\ e <= 1) vocal_energy
    /\ (Exists (fun k => 0 < frame_energy (frame_at y (k * HOP_LENGTH)))
               (seq 0 full) ->
        Exists (fun e => e == 1) vocal_energy)
    /\ (Forall (fun k => frame_energy (frame_at y (k * HOP_LENGTH)) == 0)
               (seq 0 full) ->
        Forall (fun e => e == 0) vocal_energy).
Proof. exact (load_audio_ok frame_energy y). Qed.

(** X3 on two frames, one of ones and one of halves, with the sum of squares
    as frame energy. *)
Lemma X3_energies_normalised_witness :
  let y := two_frames in
  (HOP_LENGTH <= length y)%nat
  /\ exists vocal_energy,
       load_audio sum_squares y = Analysed (vocal_energy, 2%Z)
       /\ Forall (fun e => 0 <= e /\ e <= 1) vocal_energy.
Proof.
  cbv zeta.
  assert (Hlen : (HOP_LENGTH <= length two_frames)%nat)
    by (vm_compute; repeat constructor).
  split; [exact Hlen|].
  destruct (X3_energies_normalised sum_squares
              two_frames sum_squares_nonneg Hlen)
    as (ve & E & _ & _ & H01 & _).
  exists ve. split; [exact E | exact H01].
Defined.

(** ** The lookup on the track load_audio returns *)

Lemma getitem_from_end {A} (l : list A) (i : Z) (d : A) :
  (- Py.len l <= i < 0)%Z ->
  Py.getitem l i = Py.Ok (nth (Z.to_nat (Py.len l + i)) l d).
Proof.
  unfold Py.len, Py.getitem. intros [H0 H1]. cbv zeta.
  assert (E0 : (i <? 0)%Z = true) by (apply Z.ltb_lt; lia).
  assert (E1 : (Z.of_nat (length l) + i <? 0)%Z = false) by (apply Z.ltb_ge; lia).
  assert (E2 : (Z.of_nat (length l) <=? Z.of_nat (length l) + i)%Z = false)
    by (apply Z.leb_gt; lia).
  rewrite E0, E1, E2. simpl.
  destruct (nth_error l (Z.to_nat (Z.of_nat (length l) + i))) eqn:E.
  - f_equal. symmetry. apply nth_error_nth. exact E.
  - apply nth_error_None in E. lia.
Qed.

Lemma getitem_too_negative {A} (l : list A) (i : Z) :
  (i < - Py.len l)%Z -> Py.getitem l i = Py.Raise Py.IndexError.
Proof.
  unfold Py.len, Py.getitem. intro H. cbv zeta.
  assert (E0 : (i <? 0)%Z = true) by (apply Z.ltb_lt; lia).
  assert (E1 : (Z.of_nat (length l) + i <? 0)%Z = true) by (apply Z.ltb_lt; lia).
  rewrite E0, E1. reflexivity.
Qed.

(** The lookup on a track as long as [total_frames] says, given the float
    quotient and the integer [int()] makes of it. *)
Lemma lookup_getitem (t : B64.float) (vocal_energy : list Q) (N : Z)
    (D q : B64.float) (i : Z) :
  (0 < N)%Z -> Py.len vocal_energy = N ->
  lookup_quotient t N D = Py.Ok q -> B64.int q = Py.Ok i ->
  current_energy t vocal_energy N D
  = Py.getitem vocal_energy (Z.min (N - 1) i).
Proof.
  intros HN Hlen Eq Ei. unfold current_energy.
  destruct (N >? 0)%Z eqn:E; [|rewrite Z.gtb_ltb in E; apply Z.ltb_ge in E; lia].
  rewrite (energy_idx_of_quotient _ _ _ _ Eq), Ei. cbn [Py.rbind].
  destruct vocal_energy; [unfold Py.len in Hlen; simpl in Hlen; lia | reflexivity].
Qed.

Lemma lookup_raises (t : B64.float) (vocal_energy : list Q) (N : Z)
    (D : B64.float) (e : Py.exn) :
  (0 < N)%Z -> energy_idx t N D = Py.Raise e ->
  current_energy t vocal_energy N D = Py.Raise e.
Proof.
  intros HN E. unfold current_energy.
  destruct (N >? 0)%Z eqn:G; [|rewrite Z.gtb_ltb in G; apply Z.ltb_ge in G; lia].
  rewrite E. reflexivity.
Qed.

(** The quotient itself fails only on a zero duration or on a frame count too
    large for a float. *)
Lemma lookup_quotient_raises (t : B64.float) (N : Z) (D : B64.float) (e : Py.exn) :
  lookup_quotient t N D = Py.Raise e ->
  e = Py.OverflowError \/ e = Py.ZeroDivisionError.
Proof.
  unfold lookup_quotient, B64.of_int, B64.div.
  destruct (B64.of_Z N); cbn [Py.rbind];
    try (destruct (B64.is_zero D); intro E; [right | discriminate E];
         injection E as <-; reflexivity).
  intro E. left. injection E as <-. reflexivity.
Qed.

Lemma lookup_in_track (t : B64.float) (vocal_energy : list Q) (N : Z)
    (D q : B64.float) :
  (0 < N)%Z -> Py.len vocal_energy = N ->
  not_negative t -> not_negative D ->
  lookup_quotient t N D = Py.Ok q -> B64.finite q = true ->
  exists e, current_energy t vocal_energy N D = Py.Ok e /\ In e vocal_energy.
Proof.
  intros HN Hlen Ht HD Eq Hf.
  rewrite (lookup_getitem t vocal_energy N D q _ HN Hlen Eq (int_finite q Hf)).
  assert (Hq : 0 <= B64.to_Q q).
  { apply to_Q_not_negative.
    apply (lookup_quotient_not_negative t N D q); [lia | assumption..]. }
  assert (H0 : (0 <= Py.int (B64.to_Q q))%Z).
  { rewrite (int_floor _ Hq). change 0%Z with (Qfloor 0).
    apply Qfloor_resp_le. exact Hq. }
  set (i := Z.min (N - 1) (Py.int (B64.to_Q q))).
  assert (Hi : (0 <= i < Py.len vocal_energy)%Z) by (subst i; lia).
  rewrite (getitem_in_range vocal_energy i 0 Hi).
  eexists. split; [reflexivity|]. apply nth_In. unfold Py.len in Hi. lia.
Qed.

(** For a timestamp and a duration that are not negative the read of line
    140 is always inside the track. *)
Lemma lookup_no_index_error (t : B64.float) (vocal_energy : list Q) (N : Z)
    (D : B64.float) :
  (0 < N)%Z -> Py.len vocal_energy = N ->
  not_negative t -> not_negative D ->
  current_energy t vocal_energy N D <> Py.Raise Py.IndexError.
Proof.
  intros HN Hlen Ht HD.
  destruct (lookup_quotient t N D) as [q|e] eqn:Eq.
  - destruct (B64.finite q) eqn:Hf.
    + destruct (lookup_in_track t vocal_energy N D q HN Hlen Ht HD Eq Hf)
        as (x & -> & _). discriminate.
    + destruct (int_not_finite q Hf) as (e & Ee & He).
      rewrite (lookup_raises t vocal_energy N D e HN).
      * destruct He as [-> | ->]; discriminate.
      * rewrite (energy_idx_of_quotient _ _ _ _ Eq), Ee. reflexivity.
  - rewrite (lookup_raises t vocal_energy N D e HN).
    + destruct (lookup_quotient_raises _ _ _ _ Eq) as [-> | ->]; discriminate.
    + unfold energy_idx. rewrite Eq. reflexivity.
Qed.

(** X4: in [main] the track and its length both come from [load_audio]; on a
    waveform of at least 512 samples with non-negative frame energies, and
    for a float timestamp and a float duration that are not negative, the
    lookup of [create_frame] succeeds whenever the float quotient
    [t * total_frames / duration] is finite, and the energy it returns is in
    [0, 1]; whatever the quotient, the read never raises [IndexError]. *)
Theorem X4_lookup_on_analysed_track (frame_energy : list Q -> Q) (y : list Q)
    (t duration : B64.float) :
  (forall frame, 0 <= frame_energy frame) ->
  (HOP_LENGTH <= length y)%nat ->
  not_negative t -> not_negative duration ->
  exists vocal_energy total_frames,
    load_audio frame_energy y = Analysed (vocal_energy, total_frames)
    /\ (forall q, lookup_quotient t total_frames duration = Py.Ok q ->
                  B64.finite q = true ->
                  exists e,
                    current_energy t vocal_energy total_frames duration = Py.Ok e
                    /\ 0 <= e /\ e <= 1)
    /\ current_energy t vocal_energy total_frames duration
       <> Py.Raise Py.IndexError.
Proof.
  intros Hpos Hlen Ht HD.
  destruct (load_audio_ok frame_energy y Hpos Hlen) as (ve & E & Hl & HN & H01 & _).
  exists ve, (Z.of_nat (length y / HOP_LENGTH)).
  split; [exact E|]. split.
  - intros q Eq Hf.
    destruct (lookup_in_track t ve _ duration q HN Hl Ht HD Eq Hf) as (e & He & Hin).
    exists e. split; [exact He|].
    rewrite Forall_forall in H01. apply H01. exact Hin.
  - apply lookup_no_index_error; assumption.
Qed.

(** X4 on the two-frame waveform, at [t = 1.5] of a two-second track: the
    quotient is 1.5, the index 1. *)
Lemma X4_lookup_on_analysed_track_witness :
  let y := two_frames in
  (HOP_LENGTH <= length y)%nat
  /\ exists vocal_energy total_frames e,
       load_audio sum_squares y = Analysed (vocal_energy, total_frames)
       /\ lookup_quotient (B64.lit 0x1.8p+0%float) total_frames (B64.lit 2%float)
          = Py.Ok (B64.lit 0x1.8p+0%float)
       /\ current_energy (B64.lit 0x1.8p+0%float) vocal_energy total_frames
            (B64.lit 2%float) = Py.Ok e
       /\ 0 <= e /\ e <= 1.
Proof.
  cbv zeta.
  assert (Hlen : (HOP_LENGTH <= length two_frames)%nat)
    by (vm_compute; repeat constructor).
  split; [exact Hlen|].
  destruct (X4_lookup_on_analysed_track sum_squares two_frames
              (B64.lit 0x1.8p+0%float) (B64.lit 2%float)
              sum_squares_nonneg Hlen eq_refl eq_refl)
    as (ve & N & E & H & _).
  assert (EN : N = 2%Z).
  { destruct (load_audio_ok sum_squares two_frames sum_squares_nonneg Hlen)
      as (ve' & E' & _). rewrite E' in E. injection E as _ <-.
    vm_compute. reflexivity. }
  subst N.
  assert (Eq : lookup_quotient (B64.lit 0x1.8p+0%float) 2 (B64.lit 2%float)
               = Py.Ok (B64.lit 0x1.8p+0%float)) by (vm_compute; reflexivity).
  destruct (H _ Eq eq_refl) as (e & He & H01).
  exists ve, 2%Z, e. split; [exact E|]. split; [exact Eq|].
  split; [exact He | exact H01].
Defined.

(** X5: what the lookup does outside [0, duration), on a track of
    [N = total_frames > 0] samples.  A zero duration raises
    [ZeroDivisionError] (when [N] converts to a float).  Otherwise, with [q]
    the float quotient [t * N / duration]: if [int(q)] raises (an infinite
    quotient, or NaN) so does the lookup; if [i = int(q)], past the end
    ([i >= N]) the last sample is returned; for [-N <= i < 0] the sample
    [N + i], counted from the end; for [i < -N] the read raises
    [IndexError]. *)
Theorem X5_lookup_out_of_range (t : B64.float) (vocal_energy : list Q) (N : Z)
    (D : B64.float) :
  (0 < N)%Z -> Py.len vocal_energy = N ->
  (forall n, B64.of_int N = Py.Ok n -> B64.is_zero D = true ->
             current_energy t vocal_energy N D = Py.Raise Py.ZeroDivisionError)
  /\ (forall q e, lookup_quotient t N D = Py.Ok q -> B64.int q = Py.Raise e ->
                  current_energy t vocal_energy N D = Py.Raise e
                  /\ (e = Py.OverflowError \/ e = Py.ValueError))
  /\ (forall q i, lookup_quotient t N D = Py.Ok q -> B64.int q = Py.Ok i ->
        ((N <= i)%Z ->
         current_energy t vocal_energy N D
         = Py.Ok (nth (Z.to_nat (N - 1)) vocal_energy 0))
        /\ ((- N <= i < 0)%Z ->
            current_energy t vocal_energy N D
            = Py.Ok (nth (Z.to_nat (N + i)) vocal_energy 0))
        /\ ((i < - N)%Z ->
            current_energy t vocal_energy N D = Py.Raise Py.IndexError)).
Proof.
  intros HN Hlen. split; [|split].
  - intros n En Hz. apply lookup_raises; [exact HN|].
    unfold energy_idx, lookup_quotient, B64.div. rewrite En. cbn [Py.rbind].
    rewrite Hz. reflexivity.
  - intros q e Eq Ee. split.
    + apply lookup_raises; [exact HN|].
      rewrite (energy_idx_of_quotient _ _ _ _ Eq), Ee. reflexivity.
    + destruct (B64.finite q) eqn:Hf.
      * rewrite (int_finite _ Hf) in Ee. discriminate Ee.
      * destruct (int_not_finite _ Hf) as (e' & Ee' & He).
        rewrite Ee' in Ee. injection Ee as <-. exact He.
  - intros q i Eq Ei.
    rewrite (lookup_getitem t vocal_energy N D q i HN Hlen Eq Ei).
    split; [|split]; intro Hi.
    + replace (Z.min (N - 1) i) with (N - 1)%Z by lia.
      apply getitem_in_range. lia.
    + replace (Z.min (N - 1) i) with i by lia.
      rewrite <- Hlen. apply getitem_from_end. lia.
    + replace (Z.min (N - 1) i) with i by lia.
      apply getitem_too_negative. lia.
Qed.

(** X5 on a ten-sample track of seven seconds, at [t = -1.4]: the float
    quotient is [-2.0] and the read wraps to the ninth sample. *)
Lemma X5_lookup_out_of_range_witness :
  lookup_quotient (B64.lit (-0x1.6666666666666p+0)%float) 10 (B64.lit 7%float)
  = Py.Ok (B64.lit (-2)%float)
  /\ current_energy (B64.lit (-0x1.6666666666666p+0)%float)
       [0; 1 # 9; 2 # 9; 3 # 9; 4 # 9; 5 # 9; 6 # 9; 7 # 9; 8 # 9; 1] 10
       (B64.lit 7%float) = Py.Ok (8 # 9).
Proof.
  assert (Eq : lookup_quotient (B64.lit (-0x1.6666666666666p+0)%float) 10
                 (B64.lit 7%float) = Py.Ok (B64.lit (-2)%float))
    by (vm_compute; reflexivity).
  split; [exact Eq|].
  exact (proj1 (proj2 (proj2 (proj2
    (X5_lookup_out_of_range (B64.lit (-0x1.6666666666666p+0)%float)
       [0; 1 # 9; 2 # 9; 3 # 9; 4 # 9; 5 # 9; 6 # 9; 7 # 9; 8 # 9; 1] 10
       (B64.lit 7%float) eq_refl eq_refl))
    (B64.lit (-2)%float) (-2)%Z Eq eq_refl))
    ltac:(vm_compute; split; [discriminate | reflexivity])).
Defined.

(** ** What the renderer draws *)

Lemma int_between (x : Q) (lo hi : Z) :
  (0 <= lo)%Z -> inject_Z lo <= x -> x <= inject_Z hi ->
  (lo <= Py.int x <= hi)%Z.
Proof.
  intros H0 Hlo Hhi.
  assert (Hx : 0 <= x).
  { apply Qle_trans with (inject_Z lo); [|exact Hlo].
    change 0 with (inject_Z 0). rewrite <- Zle_Qle. exact H0. }
  rewrite (int_floor _ Hx). split.
  - rewrite <- (Qfloor_Z lo). apply Qfloor_resp_le. exact Hlo.
  - rewrite <- (Qfloor_Z hi). apply Qfloor_resp_le. exact Hhi.
Qed.

Lemma square_nonneg (a : Q) : 0 <= a * a.
Proof. exact (Qsqr_nonneg a). Qed.

Lemma circle_sin_bounded (x : Q) : -1 <= circle_sin x /\ circle_sin x <= 1.
Proof.
  unfold circle_sin.
  pose proof (square_nonneg x) as H0.
  pose proof (square_nonneg (x + 1)) as H1.
  pose proof (square_nonneg (x - 1)) as H2.
  assert (Hd : 0 < 1 + x * x) by lra.
  split.
  - apply Qle_shift_div_l; [exact Hd|]. lra.
  - apply Qle_shift_div_r; [exact Hd|]. lra.
Qed.

Lemma star_radius_bounds (math_sin : Q -> Q) (current_energy : Q) (star : Star) :
  (forall x, -1 <= math_sin x /\ math_sin x <= 1) ->
  (inject_Z MIN_STAR_RADIUS <= star_radius math_sin current_energy star
   /\ star_radius math_sin current_energy star <= inject_Z MAX_STAR_RADIUS)
  /\ (1 <= Py.int (star_radius math_sin current_energy star) <= 5)%Z.
Proof.
  intro Hsin.
  assert (H : inject_Z MIN_STAR_RADIUS <= star_radius math_sin current_energy star
              /\ star_radius math_sin current_energy star
                 <= inject_Z MAX_STAR_RADIUS).
  { unfold star_radius.
    destruct (Hsin (pulse_phase star + current_energy * 15)) as [H0 H1].
    change (inject_Z MIN_STAR_RADIUS) with 1.
    change (inject_Z MAX_STAR_RADIUS) with 5.
    split; lra. }
  split; [exact H|]. destruct H as [Hlo Hhi].
  apply int_between; [lia | exact Hlo | exact Hhi].
Qed.

(** X6: whenever the sine lies in [-1, 1], a star's radius is between
    [MIN_STAR_RADIUS] and [MAX_STAR_RADIUS] for every energy and phase, and
    the integer radius handed to [pygame.draw.circle] is between 1 and 5: no
    star vanishes. *)
Theorem X6_star_radius_range (math_sin : Q -> Q) (current_energy : Q)
    (star : Star) :
  (forall x, -1 <= math_sin x /\ math_sin x <= 1) ->
  (inject_Z MIN_STAR_RADIUS <= star_radius math_sin current_energy star
   /\ star_radius math_sin current_energy star <= inject_Z MAX_STAR_RADIUS)
  /\ (1 <= Py.int (star_radius math_sin current_energy star) <= 5)%Z.
Proof. exact (star_radius_bounds math_sin current_energy star). Qed.

(** X6 with the bounded stand-in for the sine. *)
Lemma X6_star_radius_range_witness :
  (1 <= Py.int (star_radius circle_sin (1 # 2)
                  {| angle_offset := 0; dist_offset := 1; pulse_phase := 1 |})
   <= 5)%Z.
Proof.
  exact (proj2 (X6_star_radius_range circle_sin (1 # 2)
                  {| angle_offset := 0; dist_offset := 1; pulse_phase := 1 |}
                  circle_sin_bounded)).
Defined.

Lemma inject_Z_succ (k : Z) : inject_Z (k + 1) == inject_Z k + 1.
Proof. rewrite inject_Z_plus. reflexivity. Qed.

(** The alpha handed to [pygame.draw.line] (line 183), for an opacity within
    [0, 255]: its integer part. *)
Lemma line_alpha_floor (a : Q) :
  0 <= a -> a <= 255 ->
  line_alpha_of a = Qfloor a /\ (0 <= Qfloor a <= 255)%Z.
Proof.
  intros H0 H1.
  assert (H : (0 <= Py.int a <= 255)%Z) by (apply int_between; [lia | exact H0 | exact H1]).
  rewrite (int_floor _ H0) in H. unfold line_alpha_of.
  rewrite (int_floor _ H0). split; lia.
Qed.

(** *** What every group keeps *)

Lemma reset_group_ok (draws : nat -> Q) (g : StarGroup) (n : nat) :
  group_ok (fst (reset draws g n)).
Proof.
  unfold group_ok. split.
  - rewrite reset_eq. cbn [fst stars].
    destruct (make_stars_spec draws (S (S n))) as (H & _). exact H.
  - eapply Forall_impl; [|apply reset_connections].
    intros c [[Ha _] Hi]. split; [exact Hi|].
    unfold opacity_in_range. rewrite Ha. split; discriminate.
Qed.

Lemma stay_group_ok (b : Z) (g : StarGroup) (s d : Q) :
  group_ok g ->
  group_ok {| gid := gid g; stars := stars g;
              connections := map (update_connection b) (connections g);
              angle := angle g; speed := s; distance := d |}.
Proof.
  intros [Hs Hc]. unfold group_ok. cbn [stars connections].
  split; [exact Hs|]. apply Forall_map.
  eapply Forall_impl; [|exact Hc].
  intros c [Hi Hr]. split.
  - unfold indexes. rewrite update_connection_stars. exact Hi.
  - apply update_connection_in_range. exact Hr.
Qed.

Section Frames.

Variable draws : nat -> Q.
Variables math_cos math_sin : Q -> Q.

(** An update that returns keeps the group's id and what [group_ok] says. *)
Lemma update_binary64_group_ok (t : B64.float) (e : Q) (g g' : StarGroup)
    (n n' : nat) :
  group_ok g ->
  update_binary64 draws math_cos math_sin t e g n = (Py.Ok g', n') ->
  group_ok g' /\ gid g' = gid g.
Proof.
  intros H. destruct (leaves_screen math_cos math_sin g) eqn:L.
  - rewrite (update_binary64_resets _ _ _ _ _ _ _ L). intro E.
    injection E as <- _. split; [apply reset_group_ok|].
    rewrite reset_eq. reflexivity.
  - rewrite (update_binary64_stays _ _ _ _ _ _ _ L).
    destruct (beat_index_binary64 t) as [b|err]; cbn [Py.rbind]; intro E;
      [|discriminate E].
    injection E as <- _. split; [|reflexivity].
    apply stay_group_ok. exact H.
Qed.

(** An update returns whenever the beat clock does. *)
Lemma update_binary64_returns (t : B64.float) (e : Q) (g : StarGroup) (n : nat)
    (b : Z) :
  beat_index_binary64 t = Py.Ok b ->
  exists g' n', update_binary64 draws math_cos math_sin t e g n = (Py.Ok g', n').
Proof.
  intro Eb. destruct (leaves_screen math_cos math_sin g) eqn:L.
  - rewrite (update_binary64_resets _ _ _ _ _ _ _ L). eexists _, _. reflexivity.
  - rewrite (update_binary64_stays _ _ _ _ _ _ _ L), Eb. eexists _, _. reflexivity.
Qed.

Lemma life_group_ok (group_id : Z) (calls : list call) (n : nat) :
  group_ok (fst (life draws math_cos math_sin group_id calls n)).
Proof.
  apply (life_invariant draws math_cos math_sin group_ok).
  - intros g k. apply reset_group_ok.
  - intros time g _ Hg. apply stay_group_ok. exact Hg.
Qed.

(** The line of a connection that indexes the stars and whose opacity is
    within [0, 255]. *)
Lemma draw_connection_ok (g : StarGroup) (center_x center_y : Q) (c : Connection) :
  indexes (Py.len (stars g)) c -> opacity_in_range c ->
  exists shapes,
    draw_connection math_cos math_sin g center_x center_y c = Py.Ok shapes
    /\ ((alpha c == 0 /\ shapes = [])
        \/ (0 < alpha c
            /\ (0 <= Qfloor (alpha c) <= 255)%Z
            /\ exists x1 y1 x2 y2,
                 shapes = [Line x1 y1 x2 y2 (Qfloor (alpha c))])).
Proof.
  intros Hi [Hmin Hmax].
  unfold draw_connection, Py.gtb. destruct (Py.ltb 0 (alpha c)) eqn:E.
  - apply ltb_lt in E.
    destruct (line_alpha_floor (alpha c) Hmin Hmax) as [Ea Hint].
    rewrite (endpoints_in_range g c
               {| angle_offset := 0; dist_offset := 0; pulse_phase := 0 |} Hi).
    cbn [Py.rbind fst snd].
    destruct (star_point math_cos math_sin g center_x center_y _) as [x1 y1].
    destruct (star_point math_cos math_sin g center_x center_y _) as [x2 y2].
    eexists. split; [reflexivity|]. right.
    split; [exact E|]. split; [exact Hint|].
    exists x1, y1, x2, y2. rewrite Ea. reflexivity.
  - apply ltb_ge in E. exists []. split; [reflexivity|]. left.
    split; [|reflexivity]. apply Qle_antisym; assumption.
Qed.

Lemma draw_connections_ok (g : StarGroup) (center_x center_y : Q)
    (conns : list Connection) :
  Forall (fun c => indexes (Py.len (stars g)) c /\ opacity_in_range c) conns ->
  exists lines,
    draw_connections math_cos math_sin g center_x center_y conns = Py.Ok lines
    /\ Forall well_drawn lines
    /\ filter is_circle lines = []
    /\ (length lines <= length conns)%nat.
Proof.
  induction 1 as [|c conns [Hi Hr] _ IH].
  - exists []. repeat split; [constructor | reflexivity].
  - destruct IH as (ls & E & Hw & Hf & Hl).
    destruct (draw_connection_ok g center_x center_y c Hi Hr)
      as (l & El & [[_ ->]|(_ & Ha & x1 & y1 & x2 & y2 & ->)]);
      cbn [draw_connections]; rewrite El, E; cbn [Py.rbind].
    + exists ls. cbn [app length]. repeat split; try assumption. lia.
    + eexists. split; [reflexivity|]. cbn [app filter is_circle length].
      repeat split; try assumption; [|lia].
      constructor; [exact Ha | exact Hw].
Qed.

End Frames.

(** X7: throughout a group's life every connection indexes two stars of the
    group and has an opacity within [0, 255]; so for every connection the
    renderer either draws nothing (opacity 0) or reads both stars without an
    [IndexError] and draws one line whose alpha is the integer part of the
    opacity, between 0 and 255.  Alpha 0 is possible for a positive opacity:
    on binary64 numbers three ramp steps up from 0 and three steps down
    leave a positive opacity below 1. *)
Theorem X7_drawn_lines_alpha (draws : nat -> Q) (math_cos math_sin : Q -> Q)
    (group_id : Z) (calls : list call) (n : nat) (center_x center_y : Q) :
  let g := fst (life draws math_cos math_sin group_id calls n) in
  Forall (fun c =>
            exists shapes,
              draw_connection math_cos math_sin g center_x center_y c
              = Py.Ok shapes
              /\ ((alpha c == 0 /\ shapes = [])
                  \/ (0 < alpha c
                      /\ (0 <= Qfloor (alpha c) <= 255)%Z
                      /\ exists x1 y1 x2 y2,
                           shapes = [Line x1 y1 x2 y2 (Qfloor (alpha c))])))
         (connections g)
  /\ (Py.gtb (Py.Q_of_float residue_binary64) 0 = true
      /\ line_alpha_of (Py.Q_of_float residue_binary64) = 0%Z).
Proof.
  intro g. split; [|split; vm_compute; reflexivity].
  destruct (life_group_ok draws math_cos math_sin group_id calls n) as [_ H].
  fold g in H. eapply Forall_impl; [|exact H].
  intros c [Hi Hr]. apply draw_connection_ok; assumption.
Qed.

(** ** main: the groups and the frames *)

Section MainLoop.

Variable draws : nat -> Q.
Variables math_cos math_sin : Q -> Q.

Lemma init_as_reset (i : Z) (n : nat) :
  StarGroup_init draws i n
  = reset draws {| gid := i; stars := []; connections := [];
                   angle := 0 + (2 * math_pi - 0) * draws n;
                   speed := BASE_SPEED;
                   distance := 0 + (200 - 0) * draws (S n) |} (S (S n)).
Proof. reflexivity. Qed.

Lemma add_group_eq (acc : list StarGroup) (i : Z) (n : nat) :
  add_group draws acc i n
  = (acc ++ [fst (StarGroup_init draws i n)], snd (StarGroup_init draws i n)).
Proof.
  unfold add_group, bind. destruct (StarGroup_init draws i n). reflexivity.
Qed.

(** The loop of line 207 appends one group per id and draws 46 numbers for
    it. *)
Lemma group_loop (P : StarGroup -> Prop) :
  (forall g k, P (fst (reset draws g k))) ->
  forall (l : list Z) (acc : list StarGroup) (n : nat),
    let r := for_each l (add_group draws) acc n in
    map gid (fst r) = map gid acc ++ l
    /\ snd r = (n + 46 * length l)%nat
    /\ (Forall P acc -> Forall P (fst r)).
Proof.
  intros HP l. induction l as [|i l IH]; intros acc n; cbv zeta.
  - cbn [for_each ret fst snd length]. rewrite app_nil_r.
    repeat split; [lia | tauto].
  - cbn [for_each]. unfold bind. rewrite add_group_eq.
    specialize (IH (acc ++ [fst (StarGroup_init draws i n)])
                   (snd (StarGroup_init draws i n))).
    cbv zeta in IH. destruct IH as (IH1 & IH2 & IH3).
    assert (Hid : gid (fst (StarGroup_init draws i n)) = i)
      by (rewrite init_as_reset, reset_eq; reflexivity).
    assert (Hk : snd (StarGroup_init draws i n) = (n + 46)%nat)
      by (rewrite init_as_reset, reset_cursor; lia).
    rewrite IH1, IH2, map_app, <- app_assoc. cbn [map app length].
    rewrite Hid. repeat split; [lia|].
    intro Hacc. apply IH3. apply Forall_app. split; [exact Hacc|].
    constructor; [|constructor]. rewrite init_as_reset. apply HP.
Qed.

Lemma make_groups_ok (n : nat) :
  map gid (fst (make_groups draws n)) = Py.range 0 NUM_STAR_GROUPS
  /\ snd (make_groups draws n) = (n + 3680)%nat
  /\ Forall group_ok (fst (make_groups draws n)).
Proof.
  unfold make_groups.
  destruct (group_loop group_ok (reset_group_ok draws)
              (Py.range 0 NUM_STAR_GROUPS) [] n) as (H1 & H2 & H3).
  rewrite H1, H2. repeat split. apply H3. constructor.
Qed.

Hypothesis sin_bounded : forall x, -1 <= math_sin x /\ math_sin x <= 1.

Lemma draw_star_circle (g : StarGroup) (center_x center_y e : Q) (star : Star) :
  is_circle (draw_star math_cos math_sin g center_x center_y e star) = true
  /\ well_drawn (draw_star math_cos math_sin g center_x center_y e star).
Proof.
  unfold draw_star.
  destruct (star_point math_cos math_sin g center_x center_y star) as [x y].
  split; [reflexivity|]. cbn [well_drawn].
  apply (star_radius_bounds math_sin e star sin_bounded).
Qed.

Lemma filter_circles (g : StarGroup) (center_x center_y e : Q) (l : list Star) :
  filter is_circle (map (draw_star math_cos math_sin g center_x center_y e) l)
  = map (draw_star math_cos math_sin g center_x center_y e) l.
Proof.
  induction l as [|s l IH]; [reflexivity|].
  cbn [map filter].
  destruct (draw_star_circle g center_x center_y e s) as [-> _].
  rewrite IH. reflexivity.
Qed.

(** The shapes of a group: seven discs, then the visible lines. *)
Lemma draw_group_ok (g : StarGroup) (e : Q) :
  group_ok g ->
  exists shapes,
    draw_group math_cos math_sin g e = Py.Ok shapes
    /\ length (filter is_circle shapes) = 7%nat
    /\ Forall well_drawn shapes.
Proof.
  intros [Hs Hc]. unfold draw_group.
  destruct (center math_cos math_sin g) as [cx cy].
  destruct (draw_connections_ok math_cos math_sin g cx cy _ Hc)
    as (lines & -> & Hw & Hf & _).
  cbn [Py.rbind]. eexists. split; [reflexivity|]. split.
  - rewrite filter_app, Hf, app_nil_r, filter_circles, length_map.
    unfold Py.len, STARS_PER_GROUP in Hs. lia.
  - apply Forall_app. split; [|exact Hw].
    apply Forall_map, Forall_forall. intros s _.
    apply draw_star_circle.
Qed.

Lemma frame_loop (t : B64.float) (e : Q) (b : Z) (groups : list StarGroup) :
  beat_index_binary64 t = Py.Ok b ->
  Forall group_ok groups ->
  forall (updated : list StarGroup) (surface : list shape) (n : nat),
  exists u s n',
    for_each groups (frame_group draws math_cos math_sin t e)
             (Py.Ok (updated, surface)) n
    = (Py.Ok (updated ++ u, surface ++ s), n')
    /\ map gid u = map gid groups
    /\ Forall group_ok u
    /\ length (filter is_circle s) = (7 * length groups)%nat
    /\ Forall well_drawn s.
Proof.
  intro Eb. induction 1 as [|g groups Hg _ IH]; intros updated surface n.
  - exists [], [], n. cbn [for_each ret]. rewrite !app_nil_r.
    repeat split; constructor.
  - cbn [for_each]. unfold bind at 1. unfold frame_group at 1. unfold bind at 1.
    destruct (update_binary64_returns draws math_cos math_sin t e g n b Eb)
      as (g' & k & Eu).
    destruct (update_binary64_group_ok draws math_cos math_sin t e g g' n k Hg Eu)
      as [Hg' Hid].
    rewrite Eu. cbn [ret Py.rbind].
    destruct (draw_group_ok g' e Hg') as (shapes & -> & Hcount & Hw).
    cbn [Py.rbind].
    destruct (IH (updated ++ [g']) (surface ++ shapes) k)
      as (u & s & n' & -> & Hu & Hok & Hc & Hws).
    exists (g' :: u), (shapes ++ s), n'.
    rewrite <- !app_assoc. cbn [app map length]. split; [reflexivity|].
    split; [rewrite Hid, Hu; reflexivity|].
    split; [constructor; assumption|].
    split; [rewrite filter_app, length_app, Hcount, Hc; lia|].
    apply Forall_app. split; assumption.
Qed.

Lemma create_frame_ok (t : B64.float) (e : Q) (b : Z) (groups : list StarGroup)
    (vocal_energy : list Q) (N : Z) (D : B64.float) (n : nat) :
  Forall group_ok groups ->
  current_energy t vocal_energy N D = Py.Ok e ->
  beat_index_binary64 t = Py.Ok b ->
  exists groups' frame n',
    create_frame draws math_cos math_sin t groups vocal_energy N D n
    = (Py.Ok (groups', frame), n')
    /\ map gid groups' = map gid groups
    /\ Forall group_ok groups'
    /\ length (filter is_circle frame) = (7 * length groups)%nat
    /\ Forall well_drawn frame.
Proof.
  intros Hg He Eb. unfold create_frame. rewrite He.
  destruct (frame_loop t e b groups Eb Hg [] [] n) as (u & s & n' & E & H).
  exists u, s, n'. split; [exact E | exact H].
Qed.

Lemma play_ok (vocal_energy : list Q) (N : Z) (D : B64.float)
    (times : list B64.float) :
  Forall (fun t => (exists e, current_energy t vocal_energy N D = Py.Ok e)
                   /\ (exists b, beat_index_binary64 t = Py.Ok b)) times ->
  forall (groups : list StarGroup) (n : nat),
    Forall group_ok groups ->
    exists groups' frames n',
      play draws math_cos math_sin times groups vocal_energy N D n
      = (Py.Ok (groups', frames), n')
      /\ map gid groups' = map gid groups
      /\ Forall group_ok groups'
      /\ length frames = length times
      /\ Forall (fun frame =>
                   length (filter is_circle frame) = (7 * length groups)%nat
                   /\ Forall well_drawn frame) frames.
Proof.
  induction 1 as [|t times [[e He] [b Eb]] _ IH]; intros groups n Hg.
  - exists groups, [], n. cbn [play ret]. repeat split; [exact Hg | constructor].
  - cbn [play]. unfold bind at 1.
    destruct (create_frame_ok t e b groups vocal_energy N D n Hg He Eb)
      as (g1 & frame & n1 & -> & Hid & Hok & Hc & Hw).
    unfold bind at 1.
    destruct (IH g1 n1 Hok) as (g2 & frames & n2 & -> & Hid2 & Hok2 & Hl & Hf).
    cbn [ret Py.rbind fst snd].
    exists g2, (frame :: frames), n2. split; [reflexivity|].
    split; [rewrite Hid2; exact Hid|]. split; [exact Hok2|].
    split; [cbn [length]; lia|].
    assert (Hlen : length g1 = length groups)
      by (rewrite <- (length_map gid g1), Hid, length_map; reflexivity).
    constructor; [split; assumption|].
    eapply Forall_impl; [|exact Hf].
    intros f [Hcf Hwf]. rewrite Hlen in Hcf. split; assumption.
Qed.

End MainLoop.

(** X8: [main] builds exactly [NUM_STAR_GROUPS] = 80 groups, with ids 0 to 79
    in order, drawing 80 * 46 = 3680 random numbers; each group starts with
    seven stars and with connections that index them, all at opacity 0. *)
Theorem X8_main_builds_80_groups (draws : nat -> Q) (n : nat) :
  let groups := fst (make_groups draws n) in
  length groups = 80%nat
  /\ map gid groups = Py.range 0 NUM_STAR_GROUPS
  /\ snd (make_groups draws n) = (n + 3680)%nat
  /\ Forall (fun g =>
               Py.len (stars g) = STARS_PER_GROUP
               /\ Forall (fun c => (fresh c /\ indexes STARS_PER_GROUP c))
                         (connections g))
            groups.
Proof.
  intro groups. subst groups. unfold make_groups.
  assert (HP : forall g k,
             Py.len (stars (fst (reset draws g k))) = STARS_PER_GROUP
             /\ Forall (fun c => (fresh c /\ indexes STARS_PER_GROUP c))
                       (connections (fst (reset draws g k)))).
  { intros g k.
    assert (Hs : Py.len (stars (fst (reset draws g k))) = STARS_PER_GROUP)
      by apply (reset_group_ok draws g k).
    split; [exact Hs|]. rewrite <- Hs. apply reset_connections. }
  destruct (group_loop draws
              (fun g => Py.len (stars g) = STARS_PER_GROUP
                        /\ Forall (fun c => (fresh c /\ indexes STARS_PER_GROUP c))
                                  (connections g))
              HP (Py.range 0 NUM_STAR_GROUPS) [] n) as (H1 & H2 & H3).
  split; [|split; [exact H1 | split; [exact H2 | apply H3; constructor]]].
  rewrite <- (length_map gid), H1. reflexivity.
Qed.

(** X9: on the groups [main] builds, frame after frame, [create_frame]
    returns for every float timestamp at which the energy lookup and the
    beat clock do (sine within [-1, 1]): the 80 groups keep their ids and
    order, nothing in the drawing code raises, and every frame holds exactly
    560 discs, of radius 1 to 5, and lines of alpha 0 to 255. *)
Theorem X9_frames_never_raise (draws : nat -> Q) (math_cos math_sin : Q -> Q)
    (times : list B64.float) (vocal_energy : list Q) (N : Z) (D : B64.float)
    (n : nat) :
  (forall x, -1 <= math_sin x /\ math_sin x <= 1) ->
  Forall (fun t => (exists e, current_energy t vocal_energy N D = Py.Ok e)
                   /\ (exists b, beat_index_binary64 t = Py.Ok b)) times ->
  let start := make_groups draws n in
  exists groups frames n',
    play draws math_cos math_sin times (fst start) vocal_energy N D (snd start)
    = (Py.Ok (groups, frames), n')
    /\ map gid groups = Py.range 0 NUM_STAR_GROUPS
    /\ length frames = length times
    /\ Forall (fun frame =>
                 length (filter is_circle frame) = 560%nat
                 /\ Forall well_drawn frame) frames.
Proof.
  intros Hsin Hlook start.
  destruct (make_groups_ok draws n) as (Hid & _ & Hok). fold start in Hid, Hok.
  destruct (play_ok draws math_cos math_sin Hsin vocal_energy N D times Hlook
              (fst start) (snd start) Hok)
    as (groups & frames & n' & E & Hid' & _ & Hl & Hf).
  exists groups, frames, n'. split; [exact E|].
  split; [rewrite Hid'; exact Hid|]. split; [exact Hl|].
  assert (H80 : length (fst start) = 80%nat)
    by (rewrite <- (length_map gid), Hid; reflexivity).
  eapply Forall_impl; [|exact Hf].
  intros f [Hc Hw]. rewrite H80 in Hc. split; assumption.
Qed.

(** X9 on the scripted random source and the circle functions, for the
    frames at [t = 0.0] and [t = 1/30] of a two-second track of three
    samples. *)
Lemma X9_frames_never_raise_witness :
  let times := [B64.lit 0%float; B64.lit 0x1.1111111111111p-5%float] in
  exists groups frames n',
    play quarter_draws circle_cos circle_sin times
         (fst (make_groups quarter_draws 0%nat)) [(1 # 4); (1 # 2); 1] 3
         (B64.lit 2%float) (snd (make_groups quarter_draws 0%nat))
    = (Py.Ok (groups, frames), n')
    /\ map gid groups = Py.range 0 NUM_STAR_GROUPS
    /\ length frames = 2%nat
    /\ Forall (fun frame =>
                 length (filter is_circle frame) = 560%nat
                 /\ Forall well_drawn frame) frames.
Proof.
  exact (X9_frames_never_raise quarter_draws circle_cos circle_sin
           [B64.lit 0%float; B64.lit 0x1.1111111111111p-5%float]
           [(1 # 4); (1 # 2); 1] 3 (B64.lit 2%float) 0%nat circle_sin_bounded
           ltac:(repeat constructor; eexists; vm_compute; reflexivity)).
Defined.

(** ** How far and how fast a group travels *)

Lemma cube_monotone (a b : Q) : 0 <= a -> a <= b -> a ^ 3 <= b ^ 3.
Proof.
  intros Ha Hab.
  change (a * (a * a) <= b * (b * b)).
  apply Qmult_le_compat_nonneg; [split; assumption|].
  split; [apply Qmult_le_0_compat; assumption|].
  apply Qmult_le_compat_nonneg; split; assumption.
Qed.

Lemma ratio_monotone (d1 d2 : Q) :
  0 <= d1 -> d1 <= d2 ->
  0 <= d1 / SCREEN_DIAGONAL /\ d1 / SCREEN_DIAGONAL <= d2 / SCREEN_DIAGONAL.
Proof.
  intros H0 H12. pose proof screen_diagonal_pos as Hs. split.
  - apply Qle_shift_div_l; [exact Hs | lra].
  - apply Qle_shift_div_l; [exact Hs|].
    unfold Qdiv. rewrite <- Qmult_assoc, (Qmult_comm (/ SCREEN_DIAGONAL)),
      Qmult_inv_r, Qmult_1_r; [exact H12|].
    intro E. rewrite E in Hs. discriminate Hs.
Qed.

Lemma next_speed_monotone (g1 g2 : StarGroup) :
  0 <= distance g1 -> distance g1 <= distance g2 ->
  next_speed g1 <= next_speed g2.
Proof.
  intros H0 H12. unfold next_speed.
  destruct (ratio_monotone _ _ H0 H12) as [Hr0 Hr].
  pose proof (cube_monotone _ _ Hr0 Hr) as Hc.
  assert (Hm : (MAX_SPEED - BASE_SPEED) * (distance g1 / SCREEN_DIAGONAL) ^ 3
               <= (MAX_SPEED - BASE_SPEED) * (distance g2 / SCREEN_DIAGONAL) ^ 3).
  { apply Qmult_le_l; [reflexivity | exact Hc]. }
  lra.
Qed.

(** X10: the speed an update sets grows with the distance (for distances
    [>= 0]): it is [BASE_SPEED] at the canvas centre, [MAX_SPEED] at one
    screen diagonal, and at most [MAX_SPEED] up to there. *)
Theorem X10_speed_curve (g1 g2 : StarGroup) :
  0 <= distance g1 -> distance g1 <= distance g2 ->
  next_speed g1 <= next_speed g2
  /\ (distance g1 == 0 -> next_speed g1 == BASE_SPEED)
  /\ (distance g2 == SCREEN_DIAGONAL -> next_speed g2 == MAX_SPEED)
  /\ (distance g2 <= SCREEN_DIAGONAL -> next_speed g2 <= MAX_SPEED).
Proof.
  intros H0 H12. split; [apply next_speed_monotone; assumption|].
  split; [|split].
  - intro E. unfold next_speed. rewrite E. reflexivity.
  - intro E. unfold next_speed. rewrite E. reflexivity.
  - intro Hle.
    pose (top := {| gid := 0; stars := []; connections := [];
                    angle := 0; speed := 0; distance := SCREEN_DIAGONAL |}).
    apply Qle_trans with (next_speed top).
    + apply next_speed_monotone; [lra | exact Hle].
    + discriminate.
Qed.

(** X10 on a group at distance 100 and one at distance 1000. *)
Lemma X10_speed_curve_witness :
  let near := {| gid := 0; stars := []; connections := [];
                 angle := 0; speed := 3; distance := 100 |} in
  let far := {| gid := 1; stars := []; connections := [];
                angle := 0; speed := 3; distance := 1000 |} in
  next_speed near <= next_speed far.
Proof.
  exact (proj1 (X10_speed_curve
           {| gid := 0; stars := []; connections := [];
              angle := 0; speed := 3; distance := 100 |}
           {| gid := 1; stars := []; connections := [];
              angle := 0; speed := 3; distance := 1000 |}
           ltac:(discriminate) ltac:(discriminate))).
Defined.

Lemma circle_identity (x : Q) :
  circle_cos x * circle_cos x + circle_sin x * circle_sin x == 1.
Proof.
  unfold circle_cos, circle_sin.
  pose proof (square_nonneg x) as H. field. lra.
Qed.

Lemma circle_near_unit (x : Q) :
  999 # 1000 <= circle_cos x * circle_cos x + circle_sin x * circle_sin x.
Proof. rewrite circle_identity. discriminate. Qed.

Lemma square_bound (u b : Q) : - b <= u -> u <= b -> u * u <= b * b.
Proof.
  intros H0 H1.
  assert (H : 0 <= (b - u) * (b + u)) by (apply Qmult_le_0_compat; lra).
  assert (E : (b - u) * (b + u) == b * b - u * u) by ring.
  rewrite E in H. lra.
Qed.

Section Travel.

Variable draws : nat -> Q.
Variables math_cos math_sin : Q -> Q.
(** The cosine and sine are those of a floating-point library:
    cos^2 + sin^2 is 1 up to rounding, here at least 0.999. *)
Hypothesis near_unit_circle :
  forall x, 999 # 1000 <= math_cos x * math_cos x + math_sin x * math_sin x.

(** A group whose advanced centre is within the margin is less than 1239
    pixels from the canvas centre. *)
Lemma on_screen_distance (g : StarGroup) :
  0 <= distance g ->
  leaves_screen math_cos math_sin g = false ->
  distance g + next_speed g <= 1239.
Proof.
  intros Hd L. pose proof (next_speed_lower_bound g Hd) as Hs.
  assert (H3 : 0 <= BASE_SPEED) by discriminate.
  unfold leaves_screen, center, advance, off_screen, Py.gtb in L.
  cbn [angle distance] in L.
  set (d := distance g + next_speed g) in *.
  set (c := math_cos (angle g)) in *. set (s := math_sin (angle g)) in *.
  apply orb_false_iff in L. destruct L as [L L4].
  apply orb_false_iff in L. destruct L as [L L3].
  apply orb_false_iff in L. destruct L as [L1 L2].
  apply ltb_ge in L1, L2, L3, L4.
  change (inject_Z WIDTH) with 1920 in *. change (inject_Z HEIGHT) with 1080 in *.
  assert (Ew : 1920 / 2 == 960) by reflexivity.
  assert (Eh : 1080 / 2 == 540) by reflexivity.
  rewrite Ew in L1, L2. rewrite Eh in L3, L4.
  assert (Hx : (c * d) * (c * d) <= 1060 * 1060) by (apply square_bound; lra).
  assert (Hy : (s * d) * (s * d) <= 640 * 640) by (apply square_bound; lra).
  assert (E : (c * c + s * s) * (d * d) == (c * d) * (c * d) + (s * d) * (s * d))
    by ring.
  assert (Hm : (999 # 1000) * (d * d) <= (c * c + s * s) * (d * d)).
  { apply Qmult_le_compat_r; [apply near_unit_circle | apply square_nonneg]. }
  rewrite E in Hm.
  apply Qnot_lt_le. intro Hgt.
  assert (Hbig : 1239 * 1239 < d * d).
  { apply Qlt_le_trans with (1239 * d).
    - apply Qmult_lt_l; [reflexivity | exact Hgt].
    - apply Qmult_le_compat_r; lra. }
  lra.
Qed.

Lemma no_reset_length (calls : list call) :
  forall g n, 0 <= distance g -> calls <> [] ->
    no_reset draws math_cos math_sin calls g n = true ->
    distance g + 3 * inject_Z (Z.of_nat (length calls)) <= 1239.
Proof.
  induction calls as [|c calls IH]; intros g n Hg Hne Hn; [congruence|].
  destruct c as [time e|]; [|discriminate Hn].
  cbn [no_reset] in Hn. apply andb_true_iff in Hn. destruct Hn as [L Hn].
  apply negb_true_iff in L.
  pose proof (on_screen_distance g Hg L) as Hd.
  pose proof (next_speed_lower_bound g Hg) as Hs.
  change BASE_SPEED with 3 in Hs.
  rewrite (update_stays _ _ _ _ _ _ _ L) in Hn. cbn [fst snd] in Hn.
  cbn [length]. rewrite Nat2Z.inj_succ, <- Z.add_1_r, inject_Z_succ.
  destruct calls as [|c' calls'].
  - cbn [length Z.of_nat]. change (inject_Z 0) with 0. lra.
  - apply IH in Hn; [|cbn [distance]; lra | discriminate].
    cbn [distance] in Hn. lra.
Qed.

End Travel.

(** X11: with cos^2 + sin^2 at least 0.999 (1 up to the rounding of a
    floating-point cosine and sine), a group of distance [>= 0] cannot take
    more than 413 consecutive updates without being reset: while it stays
    within the margin its distance is at most 1239 pixels and grows by at
    least [BASE_SPEED] = 3 per update.  Every group is therefore re-created
    at least once in any 414 updates. *)
Theorem X11_reset_within_414_updates (draws : nat -> Q)
    (math_cos math_sin : Q -> Q) (calls : list call) (g : StarGroup) (n : nat) :
  (forall x, 999 # 1000 <= math_cos x * math_cos x + math_sin x * math_sin x) ->
  0 <= distance g ->
  no_reset draws math_cos math_sin calls g n = true ->
  (length calls <= 413)%nat
  /\ (calls <> [] ->
      distance (fst (run draws math_cos math_sin calls g n)) <= 1239).
Proof.
  intros Hc Hg Hn. split.
  - destruct calls as [|c calls]; [cbn [length]; lia|].
    pose proof (no_reset_length draws math_cos math_sin Hc (c :: calls) g n Hg
                  ltac:(discriminate) Hn) as H.
    assert (Hq : inject_Z (Z.of_nat (length (c :: calls))) <= inject_Z 413)
      by (change (inject_Z 413) with 413; lra).
    rewrite <- Zle_Qle in Hq. lia.
  - intro Hne. destruct (exists_last Hne) as (front & c & ->).
    clear Hne. revert g n Hg Hn.
    induction front as [|c0 front IH]; intros g n Hg Hn.
    + destruct c as [time e|]; [|discriminate Hn].
      cbn [app no_reset] in Hn. apply andb_true_iff in Hn. destruct Hn as [L _].
      apply negb_true_iff in L.
      unfold run. cbn [app for_each do_call]. unfold bind.
      rewrite (update_stays _ _ _ _ _ _ _ L). cbn [ret fst distance].
      apply (on_screen_distance math_cos math_sin Hc g Hg L).
    + destruct c0 as [time e|]; [|discriminate Hn].
      cbn [app no_reset] in Hn. apply andb_true_iff in Hn. destruct Hn as [L Hn].
      apply negb_true_iff in L.
      unfold run. cbn [app for_each do_call]. unfold bind.
      rewrite (update_stays _ _ _ _ _ _ _ L) in *. cbn [fst snd] in Hn.
      apply IH; [|exact Hn]. cbn [distance].
      pose proof (next_speed_lower_bound g Hg) as Hs.
      assert (0 <= BASE_SPEED) by discriminate. lra.
Qed.

(** X11 on three updates of a group at distance 50 heading along direction
    0, with the circle functions. *)
Lemma X11_reset_within_414_updates_witness :
  let g := {| gid := 0; stars := []; connections := [];
              angle := 0; speed := 3; distance := 50 |} in
  no_reset quarter_draws circle_cos circle_sin
    [Update 0 0; Update (1 # 30) 0; Update (2 # 30) 0] g 0%nat = true
  /\ distance (fst (run quarter_draws circle_cos circle_sin
                      [Update 0 0; Update (1 # 30) 0; Update (2 # 30) 0] g 0%nat))
     <= 1239.
Proof.
  cbv zeta.
  assert (Hn : no_reset quarter_draws circle_cos circle_sin
                 [Update 0 0; Update (1 # 30) 0; Update (2 # 30) 0]
                 {| gid := 0; stars := []; connections := [];
                    angle := 0; speed := 3; distance := 50 |} 0%nat = true)
    by (vm_compute; reflexivity).
  split; [exact Hn|].
  exact (proj2 (X11_reset_within_414_updates quarter_draws circle_cos circle_sin
                  [Update 0 0; Update (1 # 30) 0; Update (2 # 30) 0]
                  {| gid := 0; stars := []; connections := [];
                     angle := 0; speed := 3; distance := 50 |} 0%nat
                  circle_near_unit ltac:(discriminate) Hn)
               ltac:(discriminate)).
Defined.

(** X12: with a random source in [0, 1) and cos^2 + sin^2 at least 0.999 (1
    up to the rounding of a floating-point cosine and sine), throughout a
    group's life its distance stays within [0, 1239] and its speed within
    [BASE_SPEED, 3.89]: a group leaves the margin long before the cubic ease
    gets near [MAX_SPEED]. *)
Theorem X12_speed_stays_low (draws : nat -> Q) (math_cos math_sin : Q -> Q)
    (group_id : Z) (calls : list call) (n : nat) :
  unit_interval draws ->
  (forall x, 999 # 1000 <= math_cos x * math_cos x + math_sin x * math_sin x) ->
  let g := fst (life draws math_cos math_sin group_id calls n) in
  (0 <= distance g /\ distance g <= 1239)
  /\ (BASE_SPEED <= speed g /\ speed g <= 389 # 100)
  /\ speed g < MAX_SPEED.
Proof.
  intros U Hc g.
  assert (H : (0 <= distance g /\ distance g <= 1239)
              /\ (BASE_SPEED <= speed g /\ speed g <= 389 # 100)).
  { subst g.
    apply (life_invariant draws math_cos math_sin
             (fun g => (0 <= distance g /\ distance g <= 1239)
                       /\ (BASE_SPEED <= speed g /\ speed g <= 389 # 100))).
    - intros g k.
      destruct (reset_post draws g k U) as (_ & [H0 H1] & Hs & _).
      rewrite Hs. repeat split; try assumption; try discriminate. lra.
    - intros time g L [[H0 H1] _]. cbn [distance speed].
      pose proof (next_speed_lower_bound g H0) as Hs.
      pose proof (on_screen_distance math_cos math_sin Hc g H0 L) as Hd.
      assert (H3 : 0 <= BASE_SPEED) by discriminate.
      pose (edge := {| gid := 0; stars := []; connections := [];
                       angle := 0; speed := 0; distance := 1239 |}).
      pose proof (next_speed_monotone g edge H0 H1) as Hm.
      assert (He : next_speed edge <= 389 # 100) by discriminate.
      repeat split; try assumption; lra. }
  split; [apply H|]. split; [apply H|].
  destruct H as (_ & _ & Hs). apply Qle_lt_trans with (389 # 100);
    [exact Hs | reflexivity].
Qed.

(** X12 on the scripted source and the circle functions, after construction
    and two updates. *)
Lemma X12_speed_stays_low_witness :
  speed (fst (life quarter_draws circle_cos circle_sin 0
                [Update 0 0; Update (1 # 30) 0] 0%nat)) < MAX_SPEED.
Proof.
  exact (proj2 (proj2
    (X12_speed_stays_low quarter_draws circle_cos circle_sin 0
       [Update 0 0; Update (1 # 30) 0] 0%nat quarter_draws_unit circle_near_unit))).
Defined.

(** ** Which connections reset creates *)

Section Pairs.

Variable draws : nat -> Q.

Lemma connect_loop (i : Z) (js : list Z) :
  forall (acc : list Connection) (n : nat),
    for_each js (maybe_connect draws i) acc n
    = (acc ++ map new_connection (map (pair i) (chosen draws js n)),
       (n + length js)%nat).
Proof.
  induction js as [|j js IH]; intros acc n.
  - cbn [for_each chosen map length]. unfold ret. rewrite app_nil_r. f_equal. lia.
  - cbn [for_each chosen]. unfold bind. rewrite maybe_connect_eq, IH.
    destruct (Py.ltb (draws n) CONNECT_PROBABILITY).
    + cbn [map length]. rewrite <- app_assoc. cbn [app]. f_equal. lia.
    + cbn [length]. f_equal. lia.
Qed.

Lemma pair_loop (m : Z) (firsts : list Z) :
  forall (acc : list Connection) (n : nat),
    fst (for_each firsts
           (fun acc i => for_each (Py.range (i + 1) m) (maybe_connect draws i) acc)
           acc n)
    = acc ++ map new_connection (chosen_pairs draws firsts m n).
Proof.
  induction firsts as [|i firsts IH]; intros acc n.
  - cbn [for_each chosen_pairs map]. unfold ret. cbn [fst]. rewrite app_nil_r.
    reflexivity.
  - cbn [for_each chosen_pairs]. unfold bind. rewrite connect_loop, IH.
    rewrite map_app, <- app_assoc. reflexivity.
Qed.

Lemma chosen_in (js : list Z) :
  forall n j, In j (chosen draws js n) -> In j js.
Proof.
  induction js as [|j0 js IH]; intros n j H; [exact H|].
  cbn [chosen] in H. destruct (Py.ltb (draws n) CONNECT_PROBABILITY).
  - destruct H as [H|H]; [left; exact H | right; exact (IH _ _ H)].
  - right. exact (IH _ _ H).
Qed.

Lemma chosen_nodup (js : list Z) :
  NoDup js -> forall n, NoDup (chosen draws js n).
Proof.
  induction 1 as [|j0 js Hnin Hnd IH]; intro n; [constructor|].
  cbn [chosen]. destruct (Py.ltb (draws n) CONNECT_PROBABILITY); [|apply IH].
  constructor; [|apply IH]. intro H. apply Hnin. exact (chosen_in _ _ _ H).
Qed.

Lemma chosen_length (js : list Z) :
  forall n, (length (chosen draws js n) <= length js)%nat.
Proof.
  induction js as [|j0 js IH]; intro n; [cbn; lia|].
  cbn [chosen]. specialize (IH (S n)).
  destruct (Py.ltb (draws n) CONNECT_PROBABILITY); cbn [length]; lia.
Qed.

Lemma chosen_all (js : list Z) :
  (forall k, draws k < CONNECT_PROBABILITY) ->
  forall n, chosen draws js n = js.
Proof.
  intro Hall. induction js as [|j0 js IH]; intro n; [reflexivity|].
  cbn [chosen]. destruct (Py.ltb (draws n) CONNECT_PROBABILITY) eqn:E.
  - rewrite IH. reflexivity.
  - apply ltb_ge in E. exfalso. apply (Qlt_not_le _ _ (Hall n) E).
Qed.

Lemma chosen_none (js : list Z) :
  (forall k, CONNECT_PROBABILITY <= draws k) ->
  forall n, chosen draws js n = [].
Proof.
  intro Hnone. induction js as [|j0 js IH]; intro n; [reflexivity|].
  cbn [chosen]. destruct (Py.ltb (draws n) CONNECT_PROBABILITY) eqn:E.
  - apply ltb_lt in E. exfalso. apply (Qlt_not_le _ _ E (Hnone n)).
  - apply IH.
Qed.

Lemma range_nodup (lo hi : Z) : NoDup (Py.range lo hi).
Proof.
  unfold Py.range. apply NoDup_map_NoDup_ForallPairs; [|apply seq_NoDup].
  intros a b _ _ H. lia.
Qed.

Lemma chosen_pairs_in (m : Z) (firsts : list Z) :
  forall n p, In p (chosen_pairs draws firsts m n) ->
              In (fst p) firsts /\ (fst p < snd p < m)%Z.
Proof.
  induction firsts as [|i firsts IH]; intros n p H; [destruct H|].
  cbn [chosen_pairs] in H. apply in_app_or in H. destruct H as [H|H].
  - apply in_map_iff in H. destruct H as (j & <- & Hj).
    apply chosen_in, in_range in Hj. cbn [fst snd]. split; [left; reflexivity | lia].
  - destruct (IH _ _ H) as [Hi Hlt]. split; [right; exact Hi | exact Hlt].
Qed.

Lemma chosen_pairs_nodup (m : Z) (firsts : list Z) :
  NoDup firsts -> forall n, NoDup (chosen_pairs draws firsts m n).
Proof.
  induction 1 as [|i firsts Hnin Hnd IH]; intro n; [constructor|].
  cbn [chosen_pairs]. apply NoDup_app.
  - apply NoDup_map_NoDup_ForallPairs; [|apply chosen_nodup, range_nodup].
    intros a b _ _ H. congruence.
  - apply IH.
  - intros p Hp Hq. apply in_map_iff in Hp. destruct Hp as (j & <- & _).
    apply chosen_pairs_in in Hq. apply Hnin. exact (proj1 Hq).
Qed.

Lemma chosen_pairs_length (m : Z) (firsts : list Z) :
  forall n, (length (chosen_pairs draws firsts m n)
             <= list_sum (map (fun i => length (Py.range (i + 1) m)) firsts))%nat.
Proof.
  unfold list_sum.
  induction firsts as [|i firsts IH]; intro n; [cbn; lia|].
  cbn [chosen_pairs map fold_right]. rewrite length_app, length_map.
  pose proof (chosen_length (Py.range (i + 1) m) n).
  specialize (IH (n + length (Py.range (i + 1) m))%nat). lia.
Qed.

Lemma reset_pairs (g : StarGroup) (n : nat) :
  connections (fst (reset draws g n))
  = map new_connection
        (chosen_pairs draws (Py.range 0 STARS_PER_GROUP) STARS_PER_GROUP
                      (n + 23)).
Proof.
  rewrite reset_eq. cbn [fst connections].
  destruct (make_stars_spec draws (S (S n))) as (-> & -> & _).
  unfold make_connections. rewrite pair_loop. cbn [app].
  replace (S (S n) + 21)%nat with (n + 23)%nat by lia. reflexivity.
Qed.

Lemma conn_stars_new (l : list (Z * Z)) :
  map conn_stars (map new_connection l) = l.
Proof. rewrite map_map. cbn [new_connection conn_stars]. apply map_id. Qed.

End Pairs.

(** X13: [reset] considers every pair of stars [i < j] once, in
    lexicographic order, each with its own draw (the 24th draw of the reset
    onward), and keeps it when that draw is below 0.35.  So no two
    connections join the same pair and there are at most 21; all 21 pairs
    are connected if every draw is below 0.35 and none if no draw is. *)
Theorem X13_one_draw_per_pair (draws : nat -> Q) (g : StarGroup) (n : nat) :
  let conns := connections (fst (reset draws g n)) in
  let all_pairs := chosen_pairs (fun _ => 0) (Py.range 0 STARS_PER_GROUP)
                                STARS_PER_GROUP 0 in
  conns = map new_connection
              (chosen_pairs draws (Py.range 0 STARS_PER_GROUP) STARS_PER_GROUP
                            (n + 23))
  /\ NoDup (map conn_stars conns)
  /\ (length conns <= 21)%nat
  /\ (length all_pairs = 21%nat
      /\ forall i j, (0 <= i < j /\ j < STARS_PER_GROUP)%Z <-> In (i, j) all_pairs)
  /\ ((forall k, draws k < CONNECT_PROBABILITY) ->
      map conn_stars conns = all_pairs)
  /\ ((forall k, CONNECT_PROBABILITY <= draws k) -> conns = []).
Proof.
  intros conns all_pairs. subst conns. rewrite reset_pairs, conn_stars_new.
  split; [reflexivity|]. split; [apply chosen_pairs_nodup, range_nodup|].
  split.
  { rewrite length_map.
    eapply Nat.le_trans; [apply chosen_pairs_length|]. vm_compute. lia. }
  split.
  { split; [reflexivity|]. intros i j. split.
    - intros [[H0 H1] H2]. unfold STARS_PER_GROUP in H2.
      assert (Hi : In i [0; 1; 2; 3; 4; 5; 6]%Z) by (cbn; lia).
      assert (Hj : In j [0; 1; 2; 3; 4; 5; 6]%Z) by (cbn; lia).
      cbn in Hi, Hj.
      repeat (destruct Hi as [<-|Hi]; [|]); try contradiction;
        repeat (destruct Hj as [<-|Hj]; [|]); try contradiction;
        try lia; vm_compute; tauto.
    - intro H. apply chosen_pairs_in in H. cbn [fst snd] in H.
      destruct H as [Hi Hlt]. apply in_range in Hi. lia. }
  split.
  - intro Hall. subst all_pairs.
    generalize (n + 23)%nat. generalize 0%nat.
    generalize (Py.range 0 STARS_PER_GROUP).
    intro l. induction l as [|i l IH]; intros a b; [reflexivity|].
    cbn [chosen_pairs]. rewrite (chosen_all draws _ Hall).
    rewrite (chosen_all (fun _ => 0) _ ltac:(intro; reflexivity)).
    f_equal. apply IH.
  - intro Hnone. generalize (n + 23)%nat.
    generalize (Py.range 0 STARS_PER_GROUP).
    intro l. induction l as [|i l IH]; intro a; [reflexivity|].
    cbn [chosen_pairs]. rewrite (chosen_none draws _ Hnone).
    cbn [map app]. apply IH.
Qed.

(** X14: throughout a group's life no two connections join the same pair of
    stars, and a group has at most 21 connections. *)
Theorem X14_connections_distinct (draws : nat -> Q) (math_cos math_sin : Q -> Q)
    (group_id : Z) (calls : list call) (n : nat) :
  let g := fst (life draws math_cos math_sin group_id calls n) in
  NoDup (map conn_stars (connections g))
  /\ (length (connections g) <= 21)%nat.
Proof.
  apply (life_invariant draws math_cos math_sin
           (fun g => NoDup (map conn_stars (connections g))
                     /\ (length (connections g) <= 21)%nat)).
  - intros g k. rewrite reset_pairs, conn_stars_new, length_map. split.
    + apply chosen_pairs_nodup, range_nodup.
    + eapply Nat.le_trans; [apply chosen_pairs_length|]. vm_compute. lia.
  - intros time g _ [Hnd Hlen]. cbn [connections].
    rewrite map_map, length_map. split; [|exact Hlen].
    erewrite map_ext; [exact Hnd|].
    intro c. apply update_connection_stars.
Qed.
